(** * Daily planner (src/app/page.tsx): task store, reminder tick, persistence

    A shallow embedding of the state-handling code of the [Home] component:
    the helpers [readTasks] and [sortTasks], the reminder interval callback,
    and the handlers [handleAddTask], [handleToggleComplete],
    [handleDeleteTask], [handleSnoozeTask], [handleApplyTemplate] and
    [resetDay].

    Modelling conventions.
    - A JavaScript string is the [string] of the bytes of its UTF-8
      encoding, as the string literals of this file are; concatenation,
      equality and emptiness read the same on both, and [trim] is written
      out for the encoded white space. Strings with a lone surrogate have
      no counterpart.
    - Instants are integers (milliseconds since the epoch, [Z]); an invalid
      [Date] (time value NaN) is [None].
    - The host environment (time zone, [Date] parsing, the JSON codec, the
      successive readings of the clock and the successive results of
      [createId]) is a parameter of the development, the class [Host].
      The offset of the time zone from UTC depends on the instant, as it
      does where clocks change for daylight saving, and is a whole number
      of minutes. [Date] setters follow ECMAScript: they change fields of
      the local reading of the instant and read the result back as an
      instant.
    - The code runs in a browser: [typeof window === 'undefined'] is
      false everywhere.
    - React state is threaded explicitly through the record [AppState];
      the component is mounted, so [hasHydratedRef.current] is [true]. A
      call of [setTasks] with a new array is followed by the persistence
      effect of lines 221-224.

    The file has the embedding first (strings, JSON values, dates, the data
    model, the store and its handlers), then a reference host on which the
    model runs and a host with daylight saving, then the rest of the
    component (the catalog, the derived
    lists, the relative-time label, the events of the page), then the
    vocabulary of the statements, then the lemmas and the theorems. *)

From Stdlib Require Import ZArith List String Ascii Bool Lia Permutation Sorted.
Import ListNotations.
Local Open Scope string_scope.
Local Open Scope Z_scope.

Set Implicit Arguments.

(** ** Strings

    [String.prototype.trim] removes the WhiteSpace and LineTerminator code
    points of ECMAScript from both ends: U+0009 to U+000D, U+0020, U+00A0,
    U+1680, U+2000 to U+200A, U+2028, U+2029, U+202F, U+205F, U+3000 and
    U+FEFF. In UTF-8 they take one, two or three bytes. *)

(** TAB, LF, VT, FF, CR and SP. *)
Definition whiteSpace1 (a : ascii) : bool :=
  match nat_of_ascii a with
  | 9%nat | 10%nat | 11%nat | 12%nat | 13%nat | 32%nat => true
  | _ => false
  end.

(** U+00A0 NO-BREAK SPACE: C2 A0. *)
Definition whiteSpace2 (a b : ascii) : bool :=
  ((nat_of_ascii a =? 194) && (nat_of_ascii b =? 160))%nat.

Definition whiteSpace3 (a b c : ascii) : bool :=
  let x := nat_of_ascii a in
  let y := nat_of_ascii b in
  let z := nat_of_ascii c in
  ((* U+1680: E1 9A 80 *)
   ((x =? 225) && (y =? 154) && (z =? 128))
   (* U+2000 to U+200A: E2 80 80 to E2 80 8A *)
   || ((x =? 226) && (y =? 128) && ((128 <=? z) && (z <=? 138)))
   (* U+2028, U+2029, U+202F: E2 80 A8, E2 80 A9, E2 80 AF *)
   || ((x =? 226) && (y =? 128) && ((z =? 168) || (z =? 169) || (z =? 175)))
   (* U+205F: E2 81 9F *)
   || ((x =? 226) && (y =? 129) && (z =? 159))
   (* U+3000: E3 80 80 *)
   || ((x =? 227) && (y =? 128) && (z =? 128))
   (* U+FEFF: EF BB BF *)
   || ((x =? 239) && (y =? 187) && (z =? 191)))%nat.

(** The string without the white space code point it starts with, if it
    starts with one. *)
Definition stripWhiteSpace (s : string) : option string :=
  match s with
  | EmptyString => None
  | String a r =>
      if whiteSpace1 a then Some r
      else
        match r with
        | EmptyString => None
        | String b r2 =>
            if whiteSpace2 a b then Some r2
            else
              match r2 with
              | EmptyString => None
              | String c r3 => if whiteSpace3 a b c then Some r3 else None
              end
        end
  end.

Fixpoint trimStart (s : string) : string :=
  match s with
  | EmptyString => EmptyString
  | String a r =>
      if whiteSpace1 a then trimStart r
      else
        match r with
        | EmptyString => s
        | String b r2 =>
            if whiteSpace2 a b then trimStart r2
            else
              match r2 with
              | EmptyString => s
              | String c r3 => if whiteSpace3 a b c then trimStart r3 else s
              end
        end
  end.

(** [s] is a sequence of white space code points: it is empty or
    whitespace-only. *)
Fixpoint allWhiteSpace (s : string) : bool :=
  match s with
  | EmptyString => true
  | String a r =>
      if whiteSpace1 a then allWhiteSpace r
      else
        match r with
        | EmptyString => false
        | String b r2 =>
            if whiteSpace2 a b then allWhiteSpace r2
            else
              match r2 with
              | EmptyString => false
              | String c r3 => whiteSpace3 a b c && allWhiteSpace r3
              end
        end
  end.

(** [trimEnd] cuts the string where white space only follows. A byte in
    the middle of an encoded code point starts no white space, so the cut
    falls between two code points. *)
Fixpoint trimEnd (s : string) : string :=
  match s with
  | EmptyString => EmptyString
  | String c r => if allWhiteSpace s then EmptyString else String c (trimEnd r)
  end.

(** [String.prototype.trim] *)
Definition trim (s : string) : string := trimEnd (trimStart s).

(** Truthiness of a string: the empty string is the only falsy one. *)
Definition nonEmpty (s : string) : bool :=
  match s with EmptyString => false | String _ _ => true end.

(** ** JSON values, as [JSON.parse] returns them

    An object is the list of its own properties in their order, with
    distinct keys. Numbers are the integers: the records this program
    writes hold no number, and a number in the slot only matters through its
    truthiness. *)

Unset Elimination Schemes.
Inductive json : Type :=
| JNull
| JBool (b : bool)
| JNum (n : Z)
| JStr (s : string)
| JArr (items : list json)
| JObj (fields : list (string * json)).
Set Elimination Schemes.

Fixpoint assoc (k : string) (fs : list (string * json)) : option json :=
  match fs with
  | [] => None
  | (k', v) :: r => if String.eqb k k' then Some v else assoc k r
  end.

(** Property read [v.k]; [None] is [undefined]. Only objects carry the
    properties read by this program. *)
Definition getField (k : string) (v : json) : option json :=
  match v with
  | JObj fs => assoc k fs
  | _ => None
  end.

(** [!!x] *)
Definition truthy (x : option json) : bool :=
  match x with
  | None => false
  | Some JNull => false
  | Some (JBool b) => b
  | Some (JNum n) => negb (n =? 0)
  | Some (JStr s) => nonEmpty s
  | Some (JArr _) => true
  | Some (JObj _) => true
  end.

(** [x ?? d] *)
Definition coalesce (x : option json) (d : json) : json :=
  match x with
  | None => d
  | Some JNull => d
  | Some v => v
  end.

(** Property write in an object literal or spread: an existing key keeps its
    place, a new key is added last. *)
Fixpoint setField (k : string) (v : json) (fs : list (string * json))
  : list (string * json) :=
  match fs with
  | [] => [(k, v)]
  | (k', v') :: r =>
      if String.eqb k k' then (k', v) :: r else (k', v') :: setField k v r
  end.

Definition ownFields (v : json) : list (string * json) :=
  match v with
  | JObj fs => fs
  | _ => []
  end.

(** ** The host environment *)

Class Host : Type := {
  (** [Date.prototype.getTimezoneOffset] of an instant, in minutes: the
      local reading of the instant [t] is [t] minus the offset *)
  timezoneOffset : Z -> Z;
  (** the offset, in minutes, with which the host reads a local wall-clock
      value back as an instant (the operation UTC of ECMAScript): at a
      clock change a wall-clock value may be shown twice or never, and the
      host chooses *)
  localOffset : Z -> Z;
  (** [new Date(s).getTime()]; [None] is NaN *)
  Date_parse : string -> option Z;
  (** [JSON.parse]; [None] is a thrown SyntaxError *)
  JSON_parse : string -> option json;
  JSON_stringify : json -> string;
  (** value of the n-th reading of the clock ([Date.now()], [new Date()]) *)
  clockAt : nat -> Z;
  (** result of the n-th call of [createId] *)
  idAt : nat -> string
}.

(** ** Dates *)

Definition msPerMinute : Z := 60000.
Definition msPerHour : Z := 3600000.
Definition msPerDay : Z := 86400000.

Definition digit (d : Z) : ascii := ascii_of_nat (48 + Z.to_nat d).

Fixpoint padDigits (width : nat) (n : Z) (acc : string) : string :=
  match width with
  | O => acc
  | S w => padDigits w (n / 10) (String (digit (n mod 10)) acc)
  end.

(** Day number (days since the epoch) to proleptic Gregorian year, month
    and day. *)
Definition civilFromDays (days : Z) : Z * Z * Z :=
  let z := days + 719468 in
  let era := z / 146097 in
  let doe := z mod 146097 in
  let yoe := (doe - doe / 1460 + doe / 36524 - doe / 146096) / 365 in
  let doy := doe - (365 * yoe + yoe / 4 - yoe / 100) in
  let mp := (5 * doy + 2) / 153 in
  let d := doy - (153 * mp + 2) / 5 + 1 in
  let m := if mp <? 10 then mp + 3 else mp - 9 in
  let y := yoe + era * 400 + (if m <=? 2 then 1 else 0) in
  (y, m, d).

Definition yearString (y : Z) : string :=
  if (0 <=? y) && (y <=? 9999) then padDigits 4 y ""
  else if y <? 0 then String "-" (padDigits 6 (- y) "")
  else String "+" (padDigits 6 y "").

(** [Date.prototype.toISOString] of a valid time value:
    YYYY-MM-DDTHH:mm:ss.sssZ, in UTC. *)
Definition toISOString (t : Z) : string :=
  let '(y, m, d) := civilFromDays (t / msPerDay) in
  let r := t mod msPerDay in
  yearString y ++ "-" ++ padDigits 2 m "" ++ "-" ++ padDigits 2 d ""
    ++ "T" ++ padDigits 2 (r / msPerHour) ""
    ++ ":" ++ padDigits 2 (r mod msPerHour / msPerMinute) ""
    ++ ":" ++ padDigits 2 (r mod msPerMinute / 1000) ""
    ++ "." ++ padDigits 3 (r mod 1000) "" ++ "Z".

Section Dates.
Context {H : Host}.

(** LocalTime of ECMAScript: the local wall-clock reading of an instant,
    as milliseconds. *)
Definition localTime (t : Z) : Z := t - timezoneOffset t * msPerMinute.

(** UTC of ECMAScript: the instant of a local wall-clock value. *)
Definition UTC (local : Z) : Z := local + localOffset local * msPerMinute.

Definition Day (t : Z) : Z := t / msPerDay.
Definition TimeWithinDay (t : Z) : Z := t mod msPerDay.

Definition MakeTime (h m s ms : Z) : Z :=
  h * msPerHour + m * msPerMinute + s * 1000 + ms.

Definition MakeDate (day time : Z) : Z := day * msPerDay + time.

Definition getHours (t : Z) : Z := localTime t mod msPerDay / msPerHour.
Definition getMinutes (t : Z) : Z := localTime t mod msPerHour / msPerMinute.
Definition getSeconds (t : Z) : Z := localTime t mod msPerMinute / 1000.
Definition getMilliseconds (t : Z) : Z := localTime t mod 1000.

(** [d.setHours(h, m, s, ms)]: the local day of [d], given time of day. *)
Definition setHours (t h m s ms : Z) : Z :=
  UTC (MakeDate (Day (localTime t)) (MakeTime h m s ms)).

(** [d.setMinutes(m)]: local day, hour, seconds and milliseconds kept. *)
Definition setMinutes (t m : Z) : Z :=
  UTC (MakeDate (Day (localTime t))
         (MakeTime (getHours t) m (getSeconds t) (getMilliseconds t))).

(** [d.setSeconds(s, ms)]: local day, hour and minute kept. *)
Definition setSeconds (t s ms : Z) : Z :=
  UTC (MakeDate (Day (localTime t)) (MakeTime (getHours t) (getMinutes t) s ms)).

(** [d.setDate(d.getDate() + k)]: the local time of day kept, on the day
    that MakeDay gives for the year, the month and the day of the month
    plus [k], which is the local day of [d] plus [k]. *)
Definition addDays (t k : Z) : Z :=
  UTC (MakeDate (Day (localTime t) + k) (TimeWithinDay (localTime t))).

(** [toLocalInputValue] *)
Definition toLocalInputValue (date : Z) : string :=
  let copy := setSeconds date 0 0 in
  let offset := timezoneOffset copy in
  let local := copy - offset * 60000 in
  substring 0 16 (toISOString local).

(** [getDefaultFormTime], from the reading [now0] of the clock *)
Definition defaultFormTime (now0 : Z) : string :=
  let m := getMinutes now0 in
  let r := if m mod 5 =? 0 then 5 else m mod 5 in
  let now1 := setMinutes now0 (m + (5 - r)) in
  toLocalInputValue (setSeconds now1 0 0).
End Dates.

(** ** Data model *)

Record Task : Type := {
  id : string;
  title : string;
  notes : string;
  scheduledFor : string;
  completed : bool;
  notifiedAt : option string;
  createdAt : string
}.

(** A blueprint of a template ([TemplateTask]). *)
Record TemplateTask : Type := {
  item_title : string;
  item_notes : string;
  hour : Z;
  minute : Z
}.

Record Template : Type := {
  name : string;
  description : string;
  template_tasks : list TemplateTask
}.

Record Alert : Type := {
  alert_id : string;
  taskId : string;
  message : string;
  triggeredAt : Z
}.

Definition ALERT_DURATION_MS : Z := 45000.

(** Truthiness of [task.notifiedAt] ([string | null]). *)
Definition notified (task : Task) : bool :=
  match notifiedAt task with
  | None => false
  | Some s => nonEmpty s
  end.

(** The object that [JSON.stringify] sees for a task, and that [JSON.parse]
    gives back: the properties in the order the object literals of
    [handleAddTask] and [handleApplyTemplate] create them. *)
Definition encodeTask (task : Task) : json :=
  JObj [ ("id", JStr (id task));
         ("title", JStr (title task));
         ("notes", JStr (notes task));
         ("scheduledFor", JStr (scheduledFor task));
         ("completed", JBool (completed task));
         ("notifiedAt", match notifiedAt task with
                        | None => JNull
                        | Some s => JStr s
                        end);
         ("createdAt", JStr (createdAt task)) ].

Definition encodeTasks (l : list Task) : json := JArr (map encodeTask l).

(** ** [Array.prototype.sort]

    A stable insertion sort. The comparator returns a number or NaN
    ([None]), and the sort reads NaN as +0. For a consistent comparator the
    result of a stable sort is unique; for an inconsistent one the order is
    implementation-defined and this is one such order. *)

Section ArraySort.
Variable A : Type.
Variable comparefn : A -> A -> option Z.

Definition SortCompare (x y : A) : Z :=
  match comparefn x y with
  | None => 0
  | Some v => v
  end.

Fixpoint insertSorted (x : A) (l : list A) : list A :=
  match l with
  | [] => [x]
  | y :: r => if SortCompare x y <=? 0 then x :: y :: r else y :: insertSorted x r
  end.

Definition Array_sort (l : list A) : list A := fold_right insertSorted [] l.
End ArraySort.

Section Store.
Context {H : Host}.

(** *** [readTasks] (lines 139-159), on the content of the storage slot;
    [None] is [getItem] returning [null]. The result is the list of parsed
    records, which the program uses as [Task]s. *)

Definition keepRecord (task : json) : bool :=
  truthy (Some task) && truthy (getField "id" task)
    && truthy (getField "scheduledFor" task) && truthy (getField "title" task).

(** [{ ...task, notes: task.notes ?? '', notifiedAt: task.notifiedAt ?? null }] *)
Definition fillRecord (task : json) : json :=
  JObj (setField "notifiedAt" (coalesce (getField "notifiedAt" task) JNull)
          (setField "notes" (coalesce (getField "notes" task) (JStr ""))
             (ownFields task))).

Definition readTasks (slot : option string) : list json :=
  match slot with
  | None => []
  | Some raw =>
      if negb (nonEmpty raw) then []
      else
        match JSON_parse raw with
        | Some (JArr parsed) => map fillRecord (filter keepRecord parsed)
        | Some _ => []   (* [parsed.filter] is not a function: caught *)
        | None => []     (* SyntaxError: caught *)
        end
  end.

(** *** [sortTasks] (lines 161-167) *)

Definition getTime (task : Task) : option Z := Date_parse (scheduledFor task).

Definition compareTasks (a b : Task) : option Z :=
  if negb (Bool.eqb (completed a) (completed b)) then
    Some (if completed a then 1 else -1)
  else
    match getTime a, getTime b with
    | Some x, Some y => Some (x - y)
    | _, _ => None
    end.

Definition sortTasks (tasks : list Task) : list Task :=
  Array_sort compareTasks tasks.

(** *** Component state *)

Record AppState : Type := {
  tasks : list Task;
  formTitle : string;
  formNotes : string;
  formTime : string;
  activeAlerts : list Alert;
  (** the slot [STORAGE_KEY] of [localStorage] *)
  storage : option string;
  (** number of clock readings made so far *)
  clockReads : nat;
  (** number of ids created so far *)
  idsCreated : nat
}.

Definition M (A : Type) : Type := AppState -> A * AppState.

Definition ret {A} (a : A) : M A := fun s => (a, s).

Definition bind {A B} (c : M A) (k : A -> M B) : M B :=
  fun s => let (a, s') := c s in k a s'.

Notation "x <- c ;; k" := (bind c (fun x => k))
  (at level 61, c at next level, right associativity).
Notation "c ;;; k" := (bind c (fun _ => k))
  (at level 61, right associativity).

Fixpoint mapM {A B} (f : A -> M B) (l : list A) : M (list B) :=
  match l with
  | [] => ret []
  | a :: r => b <- f a ;; bs <- mapM f r ;; ret (b :: bs)
  end.

Definition exec {A} (c : M A) (s : AppState) : AppState := snd (c s).

(** [Date.now()] and [new Date()] *)
Definition Date_now : M Z := fun s =>
  (clockAt (clockReads s),
   {| tasks := tasks s; formTitle := formTitle s; formNotes := formNotes s;
      formTime := formTime s; activeAlerts := activeAlerts s;
      storage := storage s; clockReads := S (clockReads s);
      idsCreated := idsCreated s |}).

Definition createId : M string := fun s =>
  (idAt (idsCreated s),
   {| tasks := tasks s; formTitle := formTitle s; formNotes := formNotes s;
      formTime := formTime s; activeAlerts := activeAlerts s;
      storage := storage s; clockReads := clockReads s;
      idsCreated := S (idsCreated s) |}).

Definition getTasks : M (list Task) := fun s => (tasks s, s).

(** [persistTasks] (lines 212-215) *)
Definition persistTasks (nextTasks : list Task) : M unit := fun s =>
  (tt,
   {| tasks := tasks s; formTitle := formTitle s; formNotes := formNotes s;
      formTime := formTime s; activeAlerts := activeAlerts s;
      storage := Some (JSON_stringify (encodeTasks nextTasks));
      clockReads := clockReads s; idsCreated := idsCreated s |}).

(** [window.localStorage.removeItem(STORAGE_KEY)] *)
Definition removeItem : M unit := fun s =>
  (tt,
   {| tasks := tasks s; formTitle := formTitle s; formNotes := formNotes s;
      formTime := formTime s; activeAlerts := activeAlerts s;
      storage := None;
      clockReads := clockReads s; idsCreated := idsCreated s |}).

(** [setTasks] with a new array: the state changes, the component renders
    again and the effect of lines 221-224, whose dependency [tasks]
    changed, persists the new list. *)
Definition setTasks (next : list Task) : M unit :=
  (fun s =>
     (tt,
      {| tasks := next; formTitle := formTitle s; formNotes := formNotes s;
         formTime := formTime s; activeAlerts := activeAlerts s;
         storage := storage s;
         clockReads := clockReads s; idsCreated := idsCreated s |})) ;;;
  persistTasks next.

Definition setForm (t n f : string) : M unit := fun s =>
  (tt,
   {| tasks := tasks s; formTitle := t; formNotes := n; formTime := f;
      activeAlerts := activeAlerts s; storage := storage s;
      clockReads := clockReads s; idsCreated := idsCreated s |}).

Definition getDefaultFormTime : M string :=
  now0 <- Date_now ;; ret (defaultFormTime now0).

(** *** [pushAlert] (lines 280-287) and the expiry it schedules *)

Definition pushAlert (alert : Alert) : M unit := fun s =>
  (tt,
   {| tasks := tasks s; formTitle := formTitle s; formNotes := formNotes s;
      formTime := formTime s;
      activeAlerts := (activeAlerts s ++ [alert])%list;
      storage := storage s;
      clockReads := clockReads s; idsCreated := idsCreated s |}).

(** The callback of the timeout set by [pushAlert], run
    [ALERT_DURATION_MS] later. *)
Definition expireAlert (alert : Alert) : M unit := fun s =>
  (tt,
   {| tasks := tasks s; formTitle := formTitle s; formNotes := formNotes s;
      formTime := formTime s;
      activeAlerts :=
        filter (fun item => negb (String.eqb (alert_id item) (alert_id alert)))
               (activeAlerts s);
      storage := storage s;
      clockReads := clockReads s; idsCreated := idsCreated s |}).

(** U+2022 BULLET, in UTF-8 *)
Definition bullet : string :=
  String (ascii_of_nat 226) (String (ascii_of_nat 128)
    (String (ascii_of_nat 162) EmptyString)).

Definition alertMessage (task : Task) : string :=
  trim (title task ++ " "
          ++ (if nonEmpty (notes task) then bullet ++ " " ++ notes task else "")).

(** *** [triggerNotification] (lines 289-310). The native notification,
    the document title and the alarm sound leave the state alone; the
    alert is what remains. *)
Definition triggerNotification (task : Task) : M unit :=
  i <- createId ;;
  at_ <- Date_now ;;
  pushAlert {| alert_id := i; taskId := id task;
               message := alertMessage task; triggeredAt := at_ |}.

(** *** The reminder tick (lines 312-336) *)

Definition markNotified (task : Task) (stamp : string) : Task :=
  {| id := id task; title := title task; notes := notes task;
     scheduledFor := scheduledFor task; completed := completed task;
     notifiedAt := Some stamp; createdAt := createdAt task |}.

(** [scheduled <= now], false when [scheduled] is NaN *)
Definition isDue (task : Task) (now : Z) : bool :=
  match getTime task with
  | Some scheduled => scheduled <=? now
  | None => false
  end.

(** The callback of [prev.map]: the new task, and whether it set
    [changed]. *)
Definition reminderStep (now : Z) (task : Task) : M (bool * Task) :=
  if completed task || notified task then ret (false, task)
  else if isDue task now then
    triggerNotification task ;;;
    stamp <- Date_now ;;
    ret (true, markNotified task (toISOString stamp))
  else ret (false, task).

Definition reminderTick : M unit :=
  now <- Date_now ;;
  prev <- getTasks ;;
  res <- mapM (reminderStep now) prev ;;
  let changed := existsb fst res in
  let next := map snd res in
  if changed then setTasks (sortTasks next) else ret tt.

(** *** [handleAddTask] (lines 365-390) *)

Definition handleAddTask : M unit := fun s =>
  if negb (nonEmpty (trim (formTitle s))) || negb (nonEmpty (formTime s))
  then (tt, s)
  else
    match Date_parse (formTime s) with
    | None => (tt, s)
    | Some scheduled =>
        (i <- createId ;;
         created <- Date_now ;;
         let newTask :=
           {| id := i; title := trim (formTitle s); notes := trim (formNotes s);
              scheduledFor := toISOString scheduled; completed := false;
              notifiedAt := None; createdAt := toISOString created |} in
         prev <- getTasks ;;
         setTasks (sortTasks (prev ++ [newTask])%list) ;;;
         f <- getDefaultFormTime ;;
         setForm "" "" f) s
    end.

(** *** [handleToggleComplete] (lines 392-403) *)

Definition toggleTask (taskId : string) (task : Task) : Task :=
  if String.eqb (id task) taskId then
    {| id := id task; title := title task; notes := notes task;
       scheduledFor := scheduledFor task; completed := negb (completed task);
       notifiedAt := notifiedAt task; createdAt := createdAt task |}
  else task.

Definition handleToggleComplete (taskId : string) : M unit :=
  prev <- getTasks ;;
  setTasks (map (toggleTask taskId) prev).

(** *** [handleDeleteTask] (lines 405-407) *)

Definition handleDeleteTask (taskId : string) : M unit :=
  prev <- getTasks ;;
  setTasks (filter (fun task => negb (String.eqb (id task) taskId)) prev).

(** *** [handleSnoozeTask] (lines 409-425) *)

Definition snoozeTask (taskId : string) (minutes : Z) (task : Task) : M Task :=
  if negb (String.eqb (id task) taskId) then ret task
  else
    newDate <- Date_now ;;
    let newDate' := setMinutes newDate (getMinutes newDate + minutes) in
    ret {| id := id task; title := title task; notes := notes task;
           scheduledFor := toISOString newDate'; completed := false;
           notifiedAt := None; createdAt := createdAt task |}.

Definition handleSnoozeTask (taskId : string) (minutes : Z) : M unit :=
  prev <- getTasks ;;
  next <- mapM (snoozeTask taskId minutes) prev ;;
  setTasks (sortTasks next).

(** *** [handleApplyTemplate] (lines 427-448) *)

Definition templateTarget (now : Z) (item : TemplateTask) : Z :=
  let target := setHours now (hour item) (minute item) 0 0 in
  if target <=? now then addDays target 1 else target.

Definition materialize (now : Z) (item : TemplateTask) : M Task :=
  let target := templateTarget now item in
  i <- createId ;;
  created <- Date_now ;;
  ret {| id := i; title := item_title item; notes := item_notes item;
         scheduledFor := toISOString target; completed := false;
         notifiedAt := None; createdAt := toISOString created |}.

Definition handleApplyTemplate (template : Template) : M unit :=
  now <- Date_now ;;
  prev <- getTasks ;;
  additions <- mapM (materialize now) (template_tasks template) ;;
  setTasks (sortTasks (prev ++ additions)%list).

(** *** [resetDay] (lines 450-455): the handler queues the new state and
    removes the slot; the render that follows runs the persistence
    effect on the new, empty list. *)

Definition resetDay : M unit :=
  removeItem ;;;
  setTasks [].
End Store.

(** ** A reference host

    An executable instance of [Host], to run the model on concrete inputs:
    a time zone one hour ahead of UTC all year, a [Date] that reads the two
    formats the program itself produces ([toISOString] and the value of a
    datetime-local input), a JSON codec
    for the values of type [json], a clock that advances by one second per
    reading, and ids numbered in sequence. *)

Module RefHost.

Definition dquote : ascii := ascii_of_nat 34.
Definition backslash : ascii := ascii_of_nat 92.

Definition digitValue (c : ascii) : option Z :=
  let n := Z.of_nat (nat_of_ascii c) in
  if (48 <=? n) && (n <=? 57) then Some (n - 48) else None.

Fixpoint digitsFrom (acc : Z) (s : string) : option Z :=
  match s with
  | EmptyString => Some acc
  | String c r =>
      match digitValue c with
      | Some d => digitsFrom (10 * acc + d) r
      | None => None
      end
  end.

(** Value of a non-empty string of decimal digits. *)
Definition digits (s : string) : option Z :=
  match s with
  | EmptyString => None
  | _ => digitsFrom 0 s
  end.

Definition daysFromCivil (y m d : Z) : Z :=
  let y' := if m <=? 2 then y - 1 else y in
  let era := y' / 400 in
  let yoe := y' mod 400 in
  let doy := (153 * (if 2 <? m then m - 3 else m + 9) + 2) / 5 + d - 1 in
  let doe := yoe * 365 + yoe / 4 - yoe / 100 + doy in
  era * 146097 + doe - 719468.

Definition field (s : string) (from len : nat) : option Z :=
  digits (substring from len s).

Definition inRange (lo hi x : Z) : bool := (lo <=? x) && (x <=? hi).

(** Milliseconds of the civil date and time, read as UTC. *)
Definition civilTime (s : string) : option Z :=
  match field s 0 4, field s 5 2, field s 8 2, field s 11 2, field s 14 2 with
  | Some y, Some m, Some d, Some hh, Some mm =>
      if String.eqb (substring 4 1 s) "-" && String.eqb (substring 7 1 s) "-"
         && String.eqb (substring 10 1 s) "T" && String.eqb (substring 13 1 s) ":"
         && inRange 1 12 m && inRange 1 31 d && inRange 0 23 hh && inRange 0 59 mm
      then Some (daysFromCivil y m d * msPerDay + hh * msPerHour + mm * msPerMinute)
      else None
  | _, _, _, _, _ => None
  end.

Definition parseDate (offset : Z) (s : string) : option Z :=
  match String.length s with
  | 16%nat =>
      (* YYYY-MM-DDTHH:mm, local time *)
      match civilTime s with
      | Some t => Some (t + offset * msPerMinute)
      | None => None
      end
  | 24%nat =>
      (* YYYY-MM-DDTHH:mm:ss.sssZ *)
      match civilTime s, field s 17 2, field s 20 3 with
      | Some t, Some ss, Some ms =>
          if String.eqb (substring 16 1 s) ":" && String.eqb (substring 19 1 s) "."
             && String.eqb (substring 23 1 s) "Z" && inRange 0 59 ss
          then Some (t + ss * 1000 + ms)
          else None
      | _, _, _ => None
      end
  | _ => None
  end.

(** *** JSON text *)

Fixpoint decimal (fuel : nat) (n : Z) (acc : string) : string :=
  match fuel with
  | O => acc
  | S f =>
      let acc' := String (digit (n mod 10)) acc in
      if n <? 10 then acc' else decimal f (n / 10) acc'
  end.

Definition printNumber (n : Z) : string :=
  if n <? 0 then String "-" (decimal (Z.to_nat (- n)) (- n) "")
  else decimal (S (Z.to_nat n)) n "".

Definition hexDigit (d : Z) : ascii :=
  if d <? 10 then digit d else ascii_of_nat (87 + Z.to_nat d).

Fixpoint escape (s : string) : string :=
  match s with
  | EmptyString => EmptyString
  | String c r =>
      let n := Z.of_nat (nat_of_ascii c) in
      if Ascii.eqb c dquote then String backslash (String dquote (escape r))
      else if Ascii.eqb c backslash then String backslash (String backslash (escape r))
      else if n <? 32 then
        String backslash
          (String "u" (String "0" (String "0"
             (String (hexDigit (n / 16)) (String (hexDigit (n mod 16)) (escape r))))))
      else String c (escape r)
  end.

Definition printString (s : string) : string :=
  String dquote (escape s ++ String dquote EmptyString).

Fixpoint stringify (v : json) : string :=
  match v with
  | JNull => "null"
  | JBool true => "true"
  | JBool false => "false"
  | JNum n => printNumber n
  | JStr s => printString s
  | JArr items =>
      "[" ++ (fix elements (l : list json) : string :=
                match l with
                | [] => ""
                | [x] => stringify x
                | x :: r => stringify x ++ "," ++ elements r
                end) items ++ "]"
  | JObj fields =>
      "{" ++ (fix members (l : list (string * json)) : string :=
                match l with
                | [] => ""
                | [(k, x)] => printString k ++ ":" ++ stringify x
                | (k, x) :: r => printString k ++ ":" ++ stringify x ++ "," ++ members r
                end) fields ++ "}"
  end.

Fixpoint skipWs (s : string) : string :=
  match s with
  | String c r =>
      match nat_of_ascii c with
      | 9%nat | 10%nat | 13%nat | 32%nat => skipWs r
      | _ => s
      end
  | EmptyString => s
  end.

Definition hexValue (c : ascii) : option Z :=
  let n := Z.of_nat (nat_of_ascii c) in
  if inRange 48 57 n then Some (n - 48)
  else if inRange 97 102 n then Some (n - 87)
  else if inRange 65 70 n then Some (n - 55)
  else None.

(** The characters of a string literal after its opening quote, and the
    rest of the text. Escapes above U+007F are refused. *)
Fixpoint parseChars (s : string) : option (string * string) :=
  match s with
  | EmptyString => None
  | String c r =>
      if Ascii.eqb c dquote then Some (EmptyString, r)
      else if Ascii.eqb c backslash then
        match r with
        | String e r1 =>
            let continue (x : ascii) (rest : string) :=
              match parseChars rest with
              | Some (str, out) => Some (String x str, out)
              | None => None
              end in
            if Ascii.eqb e dquote then continue dquote r1
            else if Ascii.eqb e backslash then continue backslash r1
            else
              match e, r1 with
              | "/"%char, _ => continue "/"%char r1
              | "b"%char, _ => continue (ascii_of_nat 8) r1
              | "f"%char, _ => continue (ascii_of_nat 12) r1
              | "n"%char, _ => continue (ascii_of_nat 10) r1
              | "r"%char, _ => continue (ascii_of_nat 13) r1
              | "t"%char, _ => continue (ascii_of_nat 9) r1
              | "u"%char, String "0" (String "0" (String h (String l r2))) =>
                  match hexValue h, hexValue l with
                  | Some a, Some b =>
                      if 16 * a + b <? 128
                      then continue (ascii_of_nat (Z.to_nat (16 * a + b))) r2
                      else None
                  | _, _ => None
                  end
              | _, _ => None
              end
        | EmptyString => None
        end
      else if Z.of_nat (nat_of_ascii c) <? 32 then None
      else
        match parseChars r with
        | Some (str, out) => Some (String c str, out)
        | None => None
        end
  end.

Fixpoint spanDigits (s : string) : string * string :=
  match s with
  | String c r =>
      match digitValue c with
      | Some _ => let (d, out) := spanDigits r in (String c d, out)
      | None => (EmptyString, s)
      end
  | EmptyString => (EmptyString, s)
  end.

(** Integer literals only: a fraction or an exponent is refused. *)
Definition parseNumber (s : string) : option (json * string) :=
  let (neg, body) :=
    match s with
    | String "-" r => (true, r)
    | _ => (false, s)
    end in
  let (d, out) := spanDigits body in
  match d, digits d with
  | String "0" (String _ _), _ => None
  | _, Some n =>
      match out with
      | String "." _ | String "e" _ | String "E" _ => None
      | _ => Some (JNum (if neg then - n else n), out)
      end
  | _, None => None
  end.

Definition expect (word : string) (v : json) (s : string) : option (json * string) :=
  if String.eqb (substring 0 (String.length word) s) word
  then Some (v, substring (String.length word) (String.length s) s)
  else None.

Fixpoint parseValue (fuel : nat) (s : string) : option (json * string) :=
  match fuel with
  | O => None
  | S f =>
      match skipWs s with
      | String "n" _ as w => expect "null" JNull w
      | String "t" _ as w => expect "true" (JBool true) w
      | String "f" _ as w => expect "false" (JBool false) w
      | String "[" r =>
          match skipWs r with
          | String "]" out => Some (JArr [], out)
          | r1 =>
              match parseElements f r1 with
              | Some (vs, out) => Some (JArr vs, out)
              | None => None
              end
          end
      | String "{" r =>
          match skipWs r with
          | String "}" out => Some (JObj [], out)
          | r1 =>
              match parseMembers f r1 with
              | Some (ms, out) =>
                  Some (JObj (fold_left (fun acc kv => setField (fst kv) (snd kv) acc)
                                        ms []), out)
              | None => None
              end
          end
      | String c r as w =>
          if Ascii.eqb c dquote then
            match parseChars r with
            | Some (str, out) => Some (JStr str, out)
            | None => None
            end
          else parseNumber w
      | EmptyString => None
      end
  end
with parseElements (fuel : nat) (s : string) : option (list json * string) :=
  match fuel with
  | O => None
  | S f =>
      match parseValue f s with
      | Some (v, r) =>
          match skipWs r with
          | String "," r1 =>
              match parseElements f r1 with
              | Some (vs, out) => Some (v :: vs, out)
              | None => None
              end
          | String "]" out => Some ([v], out)
          | _ => None
          end
      | None => None
      end
  end
with parseMembers (fuel : nat) (s : string) : option (list (string * json) * string) :=
  match fuel with
  | O => None
  | S f =>
      match skipWs s with
      | String c r =>
          if Ascii.eqb c dquote then
            match parseChars r with
            | Some (k, r1) =>
                match skipWs r1 with
                | String ":" r2 =>
                    match parseValue f r2 with
                    | Some (v, r3) =>
                        match skipWs r3 with
                        | String "," r4 =>
                            match parseMembers f r4 with
                            | Some (ms, out) => Some ((k, v) :: ms, out)
                            | None => None
                            end
                        | String "}" out => Some ([(k, v)], out)
                        | _ => None
                        end
                    | None => None
                    end
                | _ => None
                end
            | None => None
            end
          else None
      | EmptyString => None
      end
  end.

Definition parse (s : string) : option json :=
  match parseValue (2 * String.length s + 2) s with
  | Some (v, out) =>
      match skipWs out with
      | EmptyString => Some v
      | _ => None
      end
  | None => None
  end.

Definition decimalString (n : nat) : string :=
  decimal (S n) (Z.of_nat n) "".

Definition host : Host := {|
  timezoneOffset := fun _ => -60;
  localOffset := fun _ => -60;
  Date_parse := parseDate (-60);
  JSON_parse := parse;
  JSON_stringify := stringify;
  clockAt := fun n => 1709251199123 + 1000 * Z.of_nat n;
  idAt := fun n => "id-" ++ decimalString n
|}.

End RefHost.

(** ** A host with daylight saving

    The time zone Europe/Berlin by the rule in force since 1996: one hour
    ahead of UTC, and two hours ahead from 01:00 UTC on the last Sunday of
    March to 01:00 UTC on the last Sunday of October. A wall-clock time
    that the change of March skips, or that the change of October shows
    twice, is read with the offset in force before the change, as
    ECMAScript has it. The codec and the ids are those of the reference
    host; the clock starts at the given instant and advances by one second
    per reading. *)

Module Berlin.

(** Day number of the last Sunday of a month of 31 days; day 0 was a
    Thursday. *)
Definition lastSunday (y m : Z) : Z :=
  let d := RefHost.daysFromCivil y m 31 in
  d - (d + 4) mod 7.

Definition yearOf (t : Z) : Z :=
  let '(y, _, _) := civilFromDays (t / msPerDay) in y.

(** The instants at which summer time starts and ends in year [y]. *)
Definition summerStart (y : Z) : Z := lastSunday y 3 * msPerDay + msPerHour.
Definition summerEnd (y : Z) : Z := lastSunday y 10 * msPerDay + msPerHour.

Definition offsetAt (t : Z) : Z :=
  let y := yearOf t in
  if (summerStart y <=? t) && (t <? summerEnd y) then -120 else -60.

(** In local values summer time starts at 03:00 and ends at 03:00: the
    values from 02:00 to 03:00 of the day of March, which no clock shows,
    are read as winter time, and those of the day of October, shown twice,
    as summer time. *)
Definition offsetOfLocal (local : Z) : Z :=
  let y := yearOf local in
  if (summerStart y + 2 * msPerHour <=? local) && (local <? summerEnd y + 2 * msPerHour)
  then -120 else -60.

Definition parseDate (s : string) : option Z :=
  match String.length s with
  | 16%nat =>
      (* YYYY-MM-DDTHH:mm, local time *)
      match RefHost.civilTime s with
      | Some local => Some (local + offsetOfLocal local * msPerMinute)
      | None => None
      end
  | _ => RefHost.parseDate 0 s
  end.

Definition host (start : Z) : Host := {|
  timezoneOffset := offsetAt;
  localOffset := offsetOfLocal;
  Date_parse := parseDate;
  JSON_parse := RefHost.parse;
  JSON_stringify := RefHost.stringify;
  clockAt := fun n => start + 1000 * Z.of_nat n;
  idAt := fun n => "id-" ++ RefHost.decimalString n
|}.

End Berlin.

(** * The rest of the component

    The catalog of templates, the lists derived from the store for display,
    the relative-time label, and the wiring of the events of the page to the
    handlers. *)

(** ** [templates] (lines 44-117) *)

Definition templates : list Template :=
  [ {| name := "Balanced Morning";
       description := "A gentle start with movement, planning, and breakfast.";
       template_tasks :=
         [ {| item_title := "Wake up & stretch";
              item_notes := "Light mobility routine to wake up your body.";
              hour := 7; minute := 0 |};
           {| item_title := "Plan the day";
              item_notes := "Review goals and top 3 priorities.";
              hour := 7; minute := 20 |};
           {| item_title := "Healthy breakfast";
              item_notes := "Keep it simple: oats or eggs + fruit.";
              hour := 7; minute := 45 |} ] |};
    {| name := "Productivity Sprint";
       description := "Deep work blocks with reminders to move and hydrate.";
       template_tasks :=
         [ {| item_title := "Deep work block #1";
              item_notes := "Focus on your most important task.";
              hour := 9; minute := 0 |};
           {| item_title := "Hydration check-in";
              item_notes := "Drink a full glass of water.";
              hour := 10; minute := 30 |};
           {| item_title := "Reset walk";
              item_notes := "Step outside for a 10 minute reset.";
              hour := 12; minute := 0 |} ] |};
    {| name := "Evening Wind Down";
       description := "Prepare tomorrow and unplug with intention.";
       template_tasks :=
         [ {| item_title := "Tomorrow prep";
              item_notes := "Lay out clothes & top priorities.";
              hour := 20; minute := 0 |};
           {| item_title := "Digital sunset";
              item_notes := "Screens off and switch to warm lights.";
              hour := 21; minute := 0 |};
           {| item_title := "Gratitude journal";
              item_notes := "Capture three things that went well.";
              hour := 21; minute := 30 |} ] |} ].

(** ** [describeRelativeTime] (lines 169-182) *)

(** [Math.round(a / b)] for integers [a] and [b > 0]: the nearest integer,
    a tie going up. Within the range of time values the floating-point
    quotient rounds to the same integer as the exact one. *)
Definition Math_round_div (a b : Z) : Z := (2 * a + b) / (2 * b).

(** What [describeRelativeTime] shows: the word [now], or the result of
    [formatter.format(value, unit)]. *)
Inductive RelativeLabel : Type :=
| LabelNow
| LabelFormat (value : Z) (unit : string).

Section Component.
Context {H : Host}.

(** The label [describeRelativeTime] chooses. For a [scheduledFor] that is
    not a date every number is NaN, both comparisons fail and
    [formatter.format(NaN, 'hour')] throws a RangeError: [None]. *)
Definition relativeLabel (scheduledFor : string) (baseline : Z)
  : option RelativeLabel :=
  match Date_parse scheduledFor with
  | None => None
  | Some target =>
      let diff := target - baseline in
      let minutes := Math_round_div diff 60000 in
      if Z.abs minutes <? 1 then Some LabelNow
      else if Z.abs minutes <? 60 then Some (LabelFormat minutes "minute")
      else
        let hours := Math_round_div minutes 60 in
        Some (LabelFormat hours "hour")
  end.

(** [describeRelativeTime], with the [format] method of the
    [Intl.RelativeTimeFormat] of the host's locale. *)
Definition describeRelativeTime (format : Z -> string -> string)
           (scheduledFor : string) (baseline : Z) : option string :=
  match relativeLabel scheduledFor baseline with
  | None => None
  | Some LabelNow => Some "now"
  | Some (LabelFormat value unit) => Some (format value unit)
  end.

(** ** The derived lists (lines 338-359) *)

(** The comparator of [upcomingTasks]; [completedTasks] swaps its
    arguments. *)
Definition compareScheduled (a b : Task) : option Z :=
  match getTime a, getTime b with
  | Some x, Some y => Some (x - y)
  | _, _ => None
  end.

Definition upcomingTasks (l : list Task) : list Task :=
  Array_sort compareScheduled (filter (fun task => negb (completed task)) l).

Definition completedTasks (l : list Task) : list Task :=
  Array_sort (fun a b => compareScheduled b a) (filter (fun task => completed task) l).

(** The state [filter]. *)
Inductive Filter : Type := FilterAll | FilterUpcoming | FilterCompleted.

Definition filteredTasks (filter : Filter) (l : list Task) : list Task :=
  match filter with
  | FilterUpcoming => upcomingTasks l
  | FilterCompleted => completedTasks l
  | FilterAll => l
  end.

(** [upcomingTasks[0]]; [None] is [undefined]. *)
Definition nextTask (l : list Task) : option Task := hd_error (upcomingTasks l).

(** ** What the list shows of a task (lines 684-686), [now] being the state
    refreshed by the display interval *)

Definition isOverdue (task : Task) (now : Z) : bool :=
  negb (completed task)
  && match getTime task with
     | Some scheduled => scheduled <? now
     | None => false
     end.

Definition wasNotified (task : Task) : bool := notified task.

(** ** The events of the page and the handlers they call (lines 226-234,
    280-287, 312-336, 531, 560-753) *)

Inductive Event : Type :=
| Submit                          (* the form's [onSubmit] *)
| ChangeTitle (value : string)    (* [setFormTitle(event.target.value)] *)
| ChangeNotes (value : string)
| ChangeTime (value : string)
| ClickToggle (taskId : string)
| ClickSnooze (taskId : string)   (* [handleSnoozeTask(task.id)]: 5 minutes *)
| ClickDelete (taskId : string)
| ClickTemplate (index : nat)     (* the button of [templates[index]] *)
| ClickReset
| ReminderInterval                (* the callback of the 15 s interval *)
| AlertTimeout (alert : Alert).   (* the callback set by [pushAlert] *)

Definition dispatch (e : Event) : M unit :=
  match e with
  | Submit => handleAddTask
  | ChangeTitle value => fun s => setForm value (formNotes s) (formTime s) s
  | ChangeNotes value => fun s => setForm (formTitle s) value (formTime s) s
  | ChangeTime value => fun s => setForm (formTitle s) (formNotes s) value s
  | ClickToggle taskId => handleToggleComplete taskId
  | ClickSnooze taskId => handleSnoozeTask taskId 5
  | ClickDelete taskId => handleDeleteTask taskId
  | ClickTemplate index =>
      match nth_error templates index with
      | Some template => handleApplyTemplate template
      | None => ret tt
      end
  | ClickReset => resetDay
  | ReminderInterval => reminderTick
  | AlertTimeout alert => expireAlert alert
  end.

(** The state after a sequence of events, the first event first. *)
Definition run (events : list Event) (s : AppState) : AppState :=
  fold_left (fun st e => exec (dispatch e) st) events s.

(** ** Vocabulary *)

(** A task that [readTasks] keeps when it reads it back. *)
Definition loadable (task : Task) : Prop := keepRecord (encodeTask task) = true.

(** The slot holds the serialization of the tasks of the state. *)
Definition inSync (s : AppState) : Prop :=
  storage s = Some (JSON_stringify (encodeTasks (tasks s))).

(** Ascending and descending [scheduledFor], for valid dates. *)
Definition earlier (a b : Task) : Prop :=
  exists x y, getTime a = Some x /\ getTime b = Some y /\ x <= y.

Definition later (a b : Task) : Prop := earlier b a.

End Component.

(** A blueprint with a time of day that a clock shows. *)
Definition clockTime (item : TemplateTask) : Prop :=
  0 <= hour item < 24 /\ 0 <= minute item < 60.

(** * Vocabulary of the statements

    The trigger condition of the tick, the canonical order, the results of
    the monadic maps of the handlers as functions of the clock and id
    counters, and the words of the specification. *)

Section Vocabulary.
Context {H : Host}.

Definition validDate (task : Task) : Prop := getTime task <> None.

(** [a] may stand before [b]: an incomplete task before a completed one,
    and within a group the earlier [scheduledFor] first. *)
Definition inOrder (a b : Task) : Prop :=
  (completed a = false /\ completed b = true)
  \/ (completed a = completed b
      /\ exists x y, getTime a = Some x /\ getTime b = Some y /\ x <= y).

(** Every incomplete task precedes every completed one, and each of the
    two groups is in ascending [scheduledFor] order. *)
Definition canonical (l : list Task) : Prop := StronglySorted inOrder l.

(** The state [s] after more clock readings, more ids and more alerts. *)
Definition advance (s : AppState) (c i : nat) (alerts : list Alert) : AppState :=
  {| tasks := tasks s; formTitle := formTitle s; formNotes := formNotes s;
     formTime := formTime s;
     activeAlerts := (activeAlerts s ++ alerts)%list;
     storage := storage s; clockReads := c; idsCreated := i |}.

(** The trigger condition of the tick. *)
Definition eligible (now : Z) (task : Task) : bool :=
  negb (completed task || notified task) && isDue task now.

Definition firedCount (now : Z) (l : list Task) : nat :=
  List.length (filter (eligible now) l).

Fixpoint tickResults (now : Z) (c : nat) (l : list Task) : list (bool * Task) :=
  match l with
  | [] => []
  | task :: r =>
      if eligible now task then
        (true, markNotified task (toISOString (clockAt (S c))))
          :: tickResults now (S (S c)) r
      else (false, task) :: tickResults now c r
  end.

Fixpoint tickAlerts (now : Z) (c i : nat) (l : list Task) : list Alert :=
  match l with
  | [] => []
  | task :: r =>
      if eligible now task then
        {| alert_id := idAt i; taskId := id task;
           message := alertMessage task; triggeredAt := clockAt c |}
          :: tickAlerts now (S (S c)) (S i) r
      else tickAlerts now c i r
  end.

(** What the tick does to one task: nothing, or the mark of a reading
    of the clock whose number lies in [lo, hi). *)
Definition tickedFrom (now : Z) (lo hi : nat) (p q : Task) : Prop :=
  (eligible now p = false /\ q = p)
  \/ (eligible now p = true
      /\ exists k, (lo <= k < hi)%nat
                   /\ q = markNotified p (toISOString (clockAt k))).

(** [notifiedAt] is [null] or a non-empty string, as every value the
    program itself writes. *)
Definition stamped (task : Task) : Prop := notifiedAt task <> Some EmptyString.

(** The fields of a task that the tick never writes. *)
Definition sameButNotifiedAt (p q : Task) : Prop :=
  id q = id p /\ title q = title p /\ notes q = notes p
  /\ scheduledFor q = scheduledFor p /\ completed q = completed p
  /\ createdAt q = createdAt p.

(** The task that [snoozeTask] returns for a task with the given id, when
    [new Date()] reads [newDate]. *)
Definition snoozed (minutes : Z) (task : Task) (newDate : Z) : Task :=
  {| id := id task; title := title task; notes := notes task;
     scheduledFor := toISOString (setMinutes newDate (getMinutes newDate + minutes));
     completed := false; notifiedAt := None; createdAt := createdAt task |}.

Fixpoint snoozeResults (taskId : string) (minutes : Z) (c : nat) (l : list Task)
  : list Task :=
  match l with
  | [] => []
  | task :: r =>
      if negb (String.eqb (id task) taskId) then task :: snoozeResults taskId minutes c r
      else snoozed minutes task (clockAt c) :: snoozeResults taskId minutes (S c) r
  end.

Definition matchCount (taskId : string) (l : list Task) : nat :=
  List.length (filter (fun task => String.eqb (id task) taskId) l).

Fixpoint materialized (now : Z) (c i : nat) (items : list TemplateTask) : list Task :=
  match items with
  | [] => []
  | item :: r =>
      {| id := idAt i; title := item_title item; notes := item_notes item;
         scheduledFor := toISOString (templateTarget now item);
         completed := false; notifiedAt := None;
         createdAt := toISOString (clockAt c) |}
        :: materialized now (S c) (S i) r
  end.

(** The day number of an instant in local time. *)
Definition localDay (t : Z) : Z := localTime t / msPerDay.

(** The instant the host gives for [h]:[m]:00.000 on day [day] of the
    local calendar. *)
Definition atLocal (day h m : Z) : Z := UTC (MakeDate day (MakeTime h m 0 0)).

(** The local clock shows [h]:[m] on day [day]: the instant the host gives
    for that wall-clock time reads back as it. A wall-clock time that a
    clock change skips is not shown. *)
Definition onTheClock (day h m : Z) : Prop :=
  localTime (atLocal day h m) = MakeDate day (MakeTime h m 0 0).

(** The time zone keeps one offset from UTC, of [offset] minutes as
    [getTimezoneOffset] counts them. *)
Definition fixedOffset (offset : Z) : Prop :=
  (forall t, timezoneOffset t = offset) /\ (forall local, localOffset local = offset).

(** The next occurrence of [h]:[m], as the specification words it: today
    when that instant is still in the future, tomorrow otherwise. *)
Definition nextOccurrence (now h m : Z) : Z :=
  let today := atLocal (localDay now) h m in
  if now <? today then today else atLocal (localDay now + 1) h m.

(** A stored record with the three required fields, each a non-empty
    string. *)
Definition wellFormedRecord (r : json) : Prop :=
  exists fs i t sch,
    r = JObj fs
    /\ assoc "id" fs = Some (JStr i) /\ i <> EmptyString
    /\ assoc "title" fs = Some (JStr t) /\ t <> EmptyString
    /\ assoc "scheduledFor" fs = Some (JStr sch) /\ sch <> EmptyString.

(** [r'] is [r] with the optional fields filled: [notes] with the empty
    string and [notifiedAt] with [null] when missing (or [null]), every
    other field as it was. *)
Definition defaultFilled (r r' : json) : Prop :=
  getField "notes" r' = Some (coalesce (getField "notes" r) (JStr ""))
  /\ getField "notifiedAt" r' = Some (coalesce (getField "notifiedAt" r) JNull)
  /\ (forall k, k <> "notes" -> k <> "notifiedAt" -> getField k r' = getField k r).

End Vocabulary.

(** What every event keeps of the store: the slot holds its serialization,
    [readTasks] would keep each of its tasks, and each [notifiedAt] is
    [null] or a non-empty string. *)
Definition storeInvariant {H : Host} (s : AppState) : Prop :=
  inSync s /\ Forall loadable (tasks s) /\ Forall stamped (tasks s).

(** ** Sample stores, for the reference host (its clock reads
    2024-02-29T23:59:59.123Z first) *)

(** A task that is due at the first reading of the clock, and a completed
    one. *)
Definition dueTask : Task :=
  {| id := "t-1"; title := "Stretch"; notes := "";
     scheduledFor := "2024-02-29T23:50:00.000Z"; completed := false;
     notifiedAt := None; createdAt := "2024-02-29T20:00:00.000Z" |}.

Definition doneTask : Task :=
  {| id := "t-2"; title := "Plan the day"; notes := "Top 3";
     scheduledFor := "2024-02-29T07:20:00.000Z"; completed := true;
     notifiedAt := None; createdAt := "2024-02-29T06:00:00.000Z" |}.

Definition sampleState : AppState :=
  {| tasks := [dueTask; doneTask]; formTitle := ""; formNotes := "";
     formTime := "2024-03-01T09:00"; activeAlerts := [];
     storage := None; clockReads := 0; idsCreated := 0 |}.

(** A second incomplete task, due later than [dueTask]. *)
Definition laterTask : Task :=
  {| id := "t-3"; title := "Reset walk"; notes := "";
     scheduledFor := "2024-03-01T12:00:00.000Z"; completed := false;
     notifiedAt := None; createdAt := "2024-02-29T20:00:00.000Z" |}.

Definition twoOpenTasks : AppState :=
  {| tasks := [dueTask; laterTask]; formTitle := ""; formNotes := "";
     formTime := "2024-03-01T09:00"; activeAlerts := [];
     storage := None; clockReads := 0; idsCreated := 0 |}.

(** The sample store with the form filled in; the time is local. *)
Definition filledForm : AppState :=
  {| tasks := [dueTask; doneTask]; formTitle := "  Read  "; formNotes := " ch. 3 ";
     formTime := "2024-03-01T09:00"; activeAlerts := [];
     storage := None; clockReads := 0; idsCreated := 0 |}.

(** The sample store once saved: the slot holds its serialization on the
    reference host. *)
Definition savedState : AppState :=
  exec (persistTasks (H := RefHost.host) [dueTask; doneTask]) sampleState.

(** A session: the form filled in and submitted, a template, a tick, a
    toggle, a snooze and a deletion. *)
Definition sampleSession : list Event :=
  [ ChangeTitle "Read"; ChangeTime "2024-03-01T09:00"; Submit; ClickTemplate 2;
    ReminderInterval; ClickToggle "t-1"; ClickSnooze "t-2"; ClickDelete "t-2" ].

(** The blueprint 07:20 of the first template. *)
Definition planTheDay : TemplateTask :=
  {| item_title := "Plan the day";
     item_notes := "Review goals and top 3 priorities.";
     hour := 7; minute := 20 |}.

(** An empty store with the form filled in for 2024-03-01T00:00:00Z. *)
Definition emptyStore : AppState :=
  {| tasks := []; formTitle := "Stretch"; formNotes := "";
     formTime := "2024-03-01T01:00"; activeAlerts := [];
     storage := None; clockReads := 0; idsCreated := 0 |}.

(** ** White space beyond ASCII *)

(** U+00A0 NO-BREAK SPACE and U+2003 EM SPACE, in UTF-8. *)
Definition noBreakSpace : string :=
  String (ascii_of_nat 194) (String (ascii_of_nat 160) EmptyString).

Definition emSpace : string :=
  String (ascii_of_nat 226) (String (ascii_of_nat 128)
    (String (ascii_of_nat 131) EmptyString)).

(** The sample store with a title of white space only in the form. *)
Definition blankTitleForm : AppState :=
  {| tasks := [dueTask; doneTask]; formTitle := noBreakSpace ++ emSpace;
     formNotes := ""; formTime := "2024-03-01T09:00"; activeAlerts := [];
     storage := None; clockReads := 0; idsCreated := 0 |}.

(** ** Clock changes, for the host in Berlin *)

(** 2024-10-27T00:58:00Z: 02:58 of summer time in the night summer time
    ends, two minutes before the clocks go back from 03:00 to 02:00. *)
Definition beforeClocksGoBack : Z := 1729990680000.

(** 2024-10-27T01:30:00Z: 02:30 for the second time that night. *)
Definition afterClocksGoBack : Z := 1729992600000.

(** 2024-03-31T08:00:00Z: 10:00 on the day summer time started; that
    night the clocks went from 02:00 to 03:00. *)
Definition dayClocksWentForward : Z := 1711872000000.

(** 2024-10-26T10:00:00Z: noon of summer time on the day before the
    clocks go back. *)
Definition dayBeforeClocksGoBack : Z := 1729936800000.


(** A template with one blueprint, at 02:30. *)
Definition nightShift : Template :=
  {| name := "Night shift"; description := "Hand over before the end of the shift.";
     template_tasks :=
       [ {| item_title := "Handover"; item_notes := ""; hour := 2; minute := 30 |} ] |}.

(** * Properties *)

Unset Implicit Arguments.

(** ** Strings and dates *)

Lemma trimStart_step (s : string) :
  trimStart s = match stripWhiteSpace s with
                | Some r => trimStart r
                | None => s
                end.
Proof.
  destruct s as [|a [|b [|c r]]]; simpl; try reflexivity.
  - destruct (whiteSpace1 a); reflexivity.
  - destruct (whiteSpace1 a); [reflexivity|]. destruct (whiteSpace2 a b); reflexivity.
  - destruct (whiteSpace1 a); [reflexivity|]. destruct (whiteSpace2 a b); [reflexivity|].
    destruct (whiteSpace3 a b c); reflexivity.
Qed.

Lemma allWhiteSpace_step (s : string) :
  s <> EmptyString ->
  allWhiteSpace s = match stripWhiteSpace s with
                    | Some r => allWhiteSpace r
                    | None => false
                    end.
Proof.
  destruct s as [|a [|b [|c r]]]; simpl; intros Hs; try congruence.
  - destruct (whiteSpace1 a); reflexivity.
  - destruct (whiteSpace1 a); [reflexivity|]. destruct (whiteSpace2 a b); reflexivity.
  - destruct (whiteSpace1 a); [reflexivity|]. destruct (whiteSpace2 a b); [reflexivity|].
    destruct (whiteSpace3 a b c); reflexivity.
Qed.

Lemma stripWhiteSpace_shorter (s r : string) :
  stripWhiteSpace s = Some r -> (String.length r < String.length s)%nat.
Proof.
  destruct s as [|a [|b [|c t]]]; simpl; try discriminate.
  - destruct (whiteSpace1 a); intros E; inversion E; subst; simpl; lia.
  - destruct (whiteSpace1 a); [intros E; inversion E; subst; simpl; lia|].
    destruct (whiteSpace2 a b); intros E; inversion E; subst; simpl; lia.
  - destruct (whiteSpace1 a); [intros E; inversion E; subst; simpl; lia|].
    destruct (whiteSpace2 a b); [intros E; inversion E; subst; simpl; lia|].
    destruct (whiteSpace3 a b c); intros E; inversion E; subst; simpl; lia.
Qed.

(** Induction along [stripWhiteSpace]. *)
Lemma stripWhiteSpace_ind (P : string -> Prop) :
  (forall s, (forall r, stripWhiteSpace s = Some r -> P r) -> P s) ->
  forall s, P s.
Proof.
  intros Hstep s.
  remember (String.length s) as n eqn:Hn.
  revert s Hn. induction n as [n IH] using lt_wf_ind. intros s Hn.
  apply Hstep. intros r Hr. apply (IH (String.length r)); [|reflexivity].
  subst n. now apply stripWhiteSpace_shorter.
Qed.

Lemma allWhiteSpace_trimStart (s : string) :
  allWhiteSpace (trimStart s) = allWhiteSpace s.
Proof.
  induction s as [s IH] using stripWhiteSpace_ind.
  destruct s as [|a u]; [reflexivity|].
  rewrite trimStart_step, (allWhiteSpace_step (String a u)) by discriminate.
  destruct (stripWhiteSpace (String a u)) as [r|] eqn:Hr.
  - now apply IH.
  - rewrite (allWhiteSpace_step (String a u)) by discriminate. now rewrite Hr.
Qed.

Lemma trimStart_allWhiteSpace (s : string) :
  allWhiteSpace s = true -> trimStart s = EmptyString.
Proof.
  induction s as [s IH] using stripWhiteSpace_ind.
  destruct s as [|a t]; [reflexivity|].
  rewrite trimStart_step, (allWhiteSpace_step (String a t)) by discriminate.
  destruct (stripWhiteSpace (String a t)) as [r|] eqn:Hr; [|discriminate].
  now apply IH.
Qed.

Lemma trimEnd_step (c : ascii) (r : string) :
  trimEnd (String c r)
  = if allWhiteSpace (String c r) then EmptyString else String c (trimEnd r).
Proof. reflexivity. Qed.

Lemma trimEnd_empty_iff (s : string) :
  trimEnd s = EmptyString <-> allWhiteSpace s = true.
Proof.
  destruct s as [|c r]; [split; reflexivity|].
  rewrite trimEnd_step. destruct (allWhiteSpace (String c r)); split;
    congruence.
Qed.

Lemma trim_empty_iff (s : string) :
  trim s = EmptyString <-> allWhiteSpace s = true.
Proof.
  unfold trim. rewrite trimEnd_empty_iff. now rewrite allWhiteSpace_trimStart.
Qed.

Lemma nonEmpty_false_iff (s : string) : nonEmpty s = false <-> s = EmptyString.
Proof. destruct s; simpl; split; congruence. Qed.

Lemma nonEmpty_true_iff (s : string) : nonEmpty s = true <-> s <> EmptyString.
Proof. destruct s; simpl; split; congruence. Qed.

Example toISOString_epoch : toISOString 0 = "1970-01-01T00:00:00.000Z".
Proof. reflexivity. Qed.

Example toISOString_2024 :
  toISOString 1709251199123 = "2024-02-29T23:59:59.123Z".
Proof. vm_compute. reflexivity. Qed.

Example toISOString_before_epoch :
  toISOString (-1) = "1969-12-31T23:59:59.999Z".
Proof. vm_compute. reflexivity. Qed.

Lemma toISOString_nonEmpty (t : Z) : nonEmpty (toISOString t) = true.
Proof.
  unfold toISOString. destruct (civilFromDays (t / msPerDay)) as [[y m] d].
  unfold yearString.
  destruct ((0 <=? y) && (y <=? 9999)); [|destruct (y <? 0)];
    cbn [padDigits append nonEmpty]; reflexivity.
Qed.


Section DateFacts.
Context {H : Host}.

(** The setters on the local reading. *)
Lemma setMinutes_local (t m : Z) :
  setMinutes t m
  = UTC (localTime t - localTime t mod msPerHour + m * msPerMinute
         + localTime t mod msPerMinute).
Proof.
  unfold setMinutes, getHours, getSeconds, getMilliseconds, MakeDate, MakeTime, Day.
  f_equal. set (L := localTime t).
  unfold msPerDay, msPerHour, msPerMinute.
  Z.to_euclidean_division_equations; lia.
Qed.

Lemma setSeconds_local (t s ms : Z) :
  setSeconds t s ms = UTC (localTime t - localTime t mod msPerMinute + s * 1000 + ms).
Proof.
  unfold setSeconds, getHours, getMinutes, MakeDate, MakeTime, Day.
  f_equal. set (L := localTime t).
  unfold msPerDay, msPerHour, msPerMinute.
  Z.to_euclidean_division_equations; lia.
Qed.

Lemma addDays_local (t k : Z) : addDays t k = UTC (localTime t + k * msPerDay).
Proof.
  unfold addDays, MakeDate, Day, TimeWithinDay. f_equal.
  pose proof (Z.div_mod (localTime t) msPerDay) as Hd.
  unfold msPerDay in *. lia.
Qed.

(** [d.setMinutes(d.getMinutes() + k)] is the instant the host gives for
    the local reading [k] minutes later. *)
Lemma setMinutes_getMinutes_local (t k : Z) :
  setMinutes t (getMinutes t + k) = UTC (localTime t + k * msPerMinute).
Proof.
  rewrite setMinutes_local. unfold getMinutes. f_equal.
  set (L := localTime t).
  unfold msPerHour, msPerMinute.
  Z.to_euclidean_division_equations; lia.
Qed.

(** It moves the instant by [k] minutes when the host reads that local
    value with the offset in force at the instant. *)
Lemma setMinutes_getMinutes (t k : Z) :
  localOffset (localTime t + k * msPerMinute) = timezoneOffset t ->
  setMinutes t (getMinutes t + k) = t + k * msPerMinute.
Proof.
  intros Ho. rewrite setMinutes_getMinutes_local. unfold UTC. rewrite Ho.
  unfold localTime. lia.
Qed.

(** [setHours] gives the instant of the given time of day on the local day
    of its argument. *)
Lemma setHours_atLocal (t h m : Z) :
  setHours t h m 0 0 = atLocal (localTime t / msPerDay) h m.
Proof. reflexivity. Qed.

(** One day after a time of day that the clock shows is the same time of
    day on the next day. *)
Lemma addDays_atLocal (day h m : Z) :
  onTheClock day h m -> addDays (atLocal day h m) 1 = atLocal (day + 1) h m.
Proof.
  intros Hc. rewrite addDays_local, Hc. unfold atLocal, MakeDate. f_equal. lia.
Qed.

(** With one offset all year the setters are plain arithmetic on the
    instant. *)
Lemma localTime_fixed (offset : Z) (t : Z) :
  fixedOffset offset -> localTime t = t - offset * msPerMinute.
Proof. intros [Ht _]. unfold localTime. now rewrite Ht. Qed.

Lemma UTC_fixed (offset : Z) (local : Z) :
  fixedOffset offset -> UTC local = local + offset * msPerMinute.
Proof. intros [_ Hl]. unfold UTC. now rewrite Hl. Qed.

Lemma onTheClock_fixed (offset : Z) (day h m : Z) :
  fixedOffset offset -> onTheClock day h m.
Proof.
  intros Hf. unfold onTheClock, atLocal.
  rewrite (localTime_fixed offset _ Hf), (UTC_fixed offset _ Hf). lia.
Qed.

Lemma setMinutes_getMinutes_fixed (offset : Z) (t k : Z) :
  fixedOffset offset -> setMinutes t (getMinutes t + k) = t + k * msPerMinute.
Proof.
  intros Hf. apply setMinutes_getMinutes. destruct Hf as [Ht Hl]. now rewrite Ht, Hl.
Qed.

Lemma setSeconds_fixed (offset : Z) (t s ms : Z) :
  fixedOffset offset ->
  setSeconds t s ms = t - localTime t mod msPerMinute + s * 1000 + ms.
Proof.
  intros Hf. rewrite setSeconds_local, (UTC_fixed offset _ Hf).
  rewrite (localTime_fixed offset t Hf). lia.
Qed.
End DateFacts.

(** ** Sorting *)

Section SortFacts.
Variable A : Type.
Variable comparefn : A -> A -> option Z.

Lemma insertSorted_perm (x : A) (l : list A) :
  Permutation (insertSorted comparefn x l) (x :: l).
Proof.
  induction l as [|y r IH]; simpl; [reflexivity|].
  destruct (SortCompare comparefn x y <=? 0); [reflexivity|].
  rewrite IH. apply perm_swap.
Qed.

Lemma Array_sort_perm (l : list A) : Permutation (Array_sort comparefn l) l.
Proof.
  induction l as [|x r IH]; simpl; [reflexivity|].
  rewrite insertSorted_perm. now constructor.
Qed.

(** Sorting with respect to a relation that the comparator decides, on
    the elements that satisfy [ok]. *)
Variable ok : A -> Prop.
Variable le : A -> A -> Prop.
Hypothesis le_trans : forall x y z, ok x -> ok y -> ok z -> le x y -> le y z -> le x z.
Hypothesis compare_le : forall x y, ok x -> ok y -> SortCompare comparefn x y <= 0 -> le x y.
Hypothesis compare_gt : forall x y, ok x -> ok y -> 0 < SortCompare comparefn x y -> le y x.

Lemma insertSorted_sorted (x : A) (l : list A) :
  ok x -> Forall ok l -> StronglySorted le l ->
  StronglySorted le (insertSorted comparefn x l).
Proof.
  intros Hx Hok Hs. induction l as [|y r IH]; simpl.
  - constructor; constructor.
  - inversion Hok as [|? ? Hy Hr]; subst.
    inversion Hs as [|? ? Hsr Hall]; subst.
    destruct (SortCompare comparefn x y <=? 0) eqn:Hc.
    + apply Z.leb_le in Hc. constructor; [exact Hs|].
      constructor; [now apply compare_le|].
      rewrite Forall_forall in *. intros z Hz.
      apply le_trans with y; auto.
    + apply Z.leb_gt in Hc. constructor; [now apply IH|].
      apply Permutation_Forall with (x :: r).
      * symmetry. apply insertSorted_perm.
      * constructor; [now apply compare_gt | exact Hall].
Qed.

Lemma Array_sort_sorted (l : list A) :
  Forall ok l -> StronglySorted le (Array_sort comparefn l).
Proof.
  induction l as [|x r IH]; simpl; intros Hok.
  - constructor.
  - inversion Hok; subst. apply insertSorted_sorted; auto.
    apply Permutation_Forall with r; [symmetry; apply Array_sort_perm | assumption].
Qed.

(** A sorted list is a fixed point of the stable sort. *)
Lemma Array_sort_fixed (l : list A) :
  Forall ok l -> StronglySorted le l ->
  (forall x y, ok x -> ok y -> le x y -> SortCompare comparefn x y <= 0) ->
  Array_sort comparefn l = l.
Proof.
  intros Hok Hs Hle. induction l as [|x r IH]; simpl; [reflexivity|].
  inversion Hok; subst. inversion Hs as [|? ? Hsr Hall]; subst.
  fold (Array_sort comparefn r). rewrite IH by assumption.
  destruct r as [|y r']; simpl; [reflexivity|].
  inversion Hall; subst.
  match goal with Hr : Forall ok (y :: r') |- _ => inversion Hr; subst end.
  assert (Hc : SortCompare comparefn x y <= 0) by auto.
  apply Z.leb_le in Hc. now rewrite Hc.
Qed.
End SortFacts.

(** ** The canonical order of the store *)

Section TaskOrder.
Context {H : Host}.

Lemma inOrder_trans (x y z : Task) :
  validDate x -> validDate y -> validDate z ->
  inOrder x y -> inOrder y z -> inOrder x z.
Proof.
  unfold inOrder. intros _ _ _ [[Hx Hy]|[Hxy (a & b & Ha & Hb & Hab)]]
                             [[Hy' Hz]|[Hyz (b' & c & Hb' & Hc & Hbc)]].
  - congruence.
  - left. split; congruence.
  - left. split; congruence.
  - right. split; [congruence|]. exists a, c.
    rewrite Hb in Hb'. inversion Hb'; subst. repeat split; auto. lia.
Qed.

Lemma compareTasks_le (x y : Task) :
  validDate x -> validDate y -> SortCompare compareTasks x y <= 0 -> inOrder x y.
Proof.
  unfold validDate, SortCompare, compareTasks, inOrder.
  intros Hx Hy.
  destruct (getTime x) as [a|]; [|congruence].
  destruct (getTime y) as [b|]; [|congruence].
  destruct (completed x), (completed y); simpl; intros Hc;
    first [ lia
          | left; split; reflexivity
          | right; split; [reflexivity|]; exists a, b; repeat split; lia ].
Qed.

Lemma compareTasks_gt (x y : Task) :
  validDate x -> validDate y -> 0 < SortCompare compareTasks x y -> inOrder y x.
Proof.
  unfold validDate, SortCompare, compareTasks, inOrder.
  intros Hx Hy.
  destruct (getTime x) as [a|]; [|congruence].
  destruct (getTime y) as [b|]; [|congruence].
  destruct (completed x), (completed y); simpl; intros Hc;
    first [ lia
          | left; split; reflexivity
          | right; split; [reflexivity|]; exists b, a; repeat split; lia ].
Qed.

Lemma inOrder_compareTasks (x y : Task) :
  validDate x -> validDate y -> inOrder x y -> SortCompare compareTasks x y <= 0.
Proof.
  unfold SortCompare, compareTasks, inOrder.
  intros _ _ [[Hx Hy]|[Hxy (a & b & Ha & Hb & Hab)]].
  - rewrite Hx, Hy. simpl. lia.
  - rewrite Hxy, Ha, Hb, Bool.eqb_reflx. simpl. lia.
Qed.

Lemma sortTasks_perm (l : list Task) : Permutation (sortTasks l) l.
Proof. apply Array_sort_perm. Qed.

(** [sortTasks] establishes the canonical order when every
    [scheduledFor] is a valid date. *)
Lemma sortTasks_canonical (l : list Task) :
  Forall validDate l -> canonical (sortTasks l).
Proof.
  apply Array_sort_sorted.
  - exact inOrder_trans.
  - exact compareTasks_le.
  - exact compareTasks_gt.
Qed.

(** A store in canonical order is left as it is by [sortTasks]. *)
Lemma sortTasks_fixed (l : list Task) :
  Forall validDate l -> canonical l -> sortTasks l = l.
Proof.
  intros Hv Hc. apply Array_sort_fixed with (ok := validDate) (le := inOrder); auto.
  exact inOrder_compareTasks.
Qed.

Lemma canonical_filter (f : Task -> bool) (l : list Task) :
  canonical l -> canonical (filter f l).
Proof.
  unfold canonical. induction 1 as [|x r Hs IH Hall]; simpl.
  - constructor.
  - destruct (f x); [|exact IH]. constructor; [exact IH|].
    rewrite Forall_forall in *. intros y Hy.
    apply filter_In in Hy as [Hy _]. auto.
Qed.
End TaskOrder.

(** ** The state monad on concrete runs *)

Section Runs.
Context {H : Host}.

Lemma advance_advance s c i a c' i' a' :
  advance (advance s c i a) c' i' a' = advance s c' i' (a ++ a')%list.
Proof. unfold advance; simpl. now rewrite app_assoc. Qed.

Lemma advance_id s : advance s (clockReads s) (idsCreated s) [] = s.
Proof. destruct s; unfold advance; simpl. now rewrite app_nil_r. Qed.

(** *** The reminder tick *)

Lemma reminderStep_fired now task s :
  eligible now task = true ->
  reminderStep now task s
  = ((true, markNotified task (toISOString (clockAt (S (clockReads s))))),
     advance s (S (S (clockReads s))) (S (idsCreated s))
       [{| alert_id := idAt (idsCreated s); taskId := id task;
           message := alertMessage task;
           triggeredAt := clockAt (clockReads s) |}]).
Proof.
  unfold eligible, reminderStep. intros He.
  apply andb_true_iff in He as [Hn Hd]. apply negb_true_iff in Hn.
  rewrite Hn, Hd. reflexivity.
Qed.

Lemma reminderStep_skipped now task s :
  eligible now task = false ->
  reminderStep now task s = ((false, task), s).
Proof.
  unfold eligible, reminderStep. intros He.
  destruct (completed task || notified task); [reflexivity|].
  simpl in He. rewrite He. reflexivity.
Qed.

Lemma mapM_reminderStep now l : forall s,
  mapM (reminderStep now) l s
  = (tickResults now (clockReads s) l,
     advance s (2 * firedCount now l + clockReads s)
       (firedCount now l + idsCreated s)
       (tickAlerts now (clockReads s) (idsCreated s) l)).
Proof.
  unfold firedCount.
  induction l as [|task r IH]; intros s; simpl.
  - unfold ret. now rewrite advance_id.
  - unfold bind. destruct (eligible now task) eqn:He.
    + rewrite (reminderStep_fired now task s He), IH. unfold ret. simpl.
      rewrite advance_advance. do 3 f_equal; lia.
    + rewrite (reminderStep_skipped now task s He), IH. reflexivity.
Qed.

Lemma tickResults_fst now l : forall c,
  map fst (tickResults now c l) = map (eligible now) l.
Proof.
  induction l as [|task r IH]; intros c; simpl; [reflexivity|].
  destruct (eligible now task) eqn:He; simpl; now rewrite IH.
Qed.

Lemma tickResults_changed now c l :
  existsb fst (tickResults now c l) = existsb (eligible now) l.
Proof.
  revert c. induction l as [|task r IH]; intros c; simpl; [reflexivity|].
  destruct (eligible now task); simpl; [reflexivity | apply IH].
Qed.

Lemma tickAlerts_taskId now l : forall c i,
  map taskId (tickAlerts now c i l) = map id (filter (eligible now) l).
Proof.
  induction l as [|task r IH]; intros c i; simpl; [reflexivity|].
  destruct (eligible now task); simpl; now rewrite IH.
Qed.

Lemma tickAlerts_none now l : forall c i,
  existsb (eligible now) l = false -> tickAlerts now c i l = [].
Proof.
  induction l as [|task r IH]; intros c i; simpl; [reflexivity|].
  destruct (eligible now task); simpl; [discriminate | apply IH].
Qed.

Lemma tickResults_snd now lo hi l : forall c,
  (lo <= c)%nat -> (c + 2 * firedCount now l <= hi)%nat ->
  Forall2 (tickedFrom now lo hi) l (map snd (tickResults now c l)).
Proof.
  unfold firedCount.
  induction l as [|task r IH]; intros c Hlo Hhi; simpl; [constructor|].
  simpl in Hhi. destruct (eligible now task) eqn:He; simpl in *.
  - constructor.
    + right. split; [exact He|]. exists (S c). split; [lia | reflexivity].
    + apply IH; lia.
  - constructor.
    + left. split; [exact He | reflexivity].
    + apply IH; lia.
Qed.

(** The state after a tick. *)
Lemma reminderTick_run s :
  let now := clockAt (clockReads s) in
  let c := S (clockReads s) in
  let n := firedCount now (tasks s) in
  exec reminderTick s
  = if existsb (eligible now) (tasks s) then
      exec (setTasks (sortTasks (map snd (tickResults now c (tasks s)))))
           (advance s (2 * n + c) (n + idsCreated s)
              (tickAlerts now c (idsCreated s) (tasks s)))
    else advance s c (idsCreated s) [].
Proof.
  unfold exec, reminderTick, bind at 1. unfold Date_now at 1.
  cbn zeta. unfold bind at 1. unfold getTasks at 1. cbn [tasks].
  unfold bind at 1. rewrite mapM_reminderStep. cbn [clockReads idsCreated tasks].
  rewrite tickResults_changed.
  destruct (existsb (eligible (clockAt (clockReads s))) (tasks s)) eqn:He.
  - unfold firedCount. unfold advance. simpl. reflexivity.
  - rewrite (tickAlerts_none _ _ _ _ He).
    assert (Hn : firedCount (clockAt (clockReads s)) (tasks s) = 0%nat).
    { unfold firedCount. clear -He. induction (tasks s) as [|t r IH]; simpl in *.
      - reflexivity.
      - destruct (eligible (clockAt (clockReads s)) t); simpl in *;
          [discriminate | auto]. }
    rewrite Hn. unfold ret, advance. simpl. reflexivity.
Qed.
End Runs.

(** ** Lists of tasks with distinct ids *)

Lemma Forall2_In_l (A B : Type) (R : A -> B -> Prop) (l : list A) (l' : list B) (a : A) :
  Forall2 R l l' -> In a l -> exists b, In b l' /\ R a b.
Proof.
  induction 1 as [|x y r r' Hxy Hr IH]; simpl; [tauto|].
  intros [->|Ha].
  - exists y. auto.
  - destruct (IH Ha) as (b & Hb & Hab). exists b. auto.
Qed.

Lemma Forall2_In_r (A B : Type) (R : A -> B -> Prop) (l : list A) (l' : list B) (b : B) :
  Forall2 R l l' -> In b l' -> exists a, In a l /\ R a b.
Proof.
  induction 1 as [|x y r r' Hxy Hr IH]; simpl; [tauto|].
  intros [->|Hb].
  - exists x. auto.
  - destruct (IH Hb) as (a & Ha & Hab). exists a. auto.
Qed.

Lemma Forall2_map_eq (A B C : Type) (R : A -> B -> Prop) (f : A -> C) (g : B -> C)
      (l : list A) (l' : list B) :
  (forall a b, R a b -> g b = f a) -> Forall2 R l l' -> map g l' = map f l.
Proof.
  intros HR. induction 1; simpl; [reflexivity|]. f_equal; auto.
Qed.

Lemma NoDup_map_inj_in (A B : Type) (f : A -> B) (l : list A) (x y : A) :
  NoDup (map f l) -> In x l -> In y l -> f x = f y -> x = y.
Proof.
  induction l as [|a r IH]; simpl; [tauto|].
  intros Hnd Hx Hy Hf. inversion Hnd as [|? ? Hnot Hr]; subst.
  destruct Hx as [->|Hx], Hy as [->|Hy]; auto.
  - exfalso. apply Hnot. rewrite Hf. now apply in_map.
  - exfalso. apply Hnot. rewrite <- Hf. now apply in_map.
Qed.

Lemma NoDup_map_filter (A B : Type) (key : A -> B) (keep : A -> bool) :
  forall xs : list A, NoDup (map key xs) -> NoDup (map key (filter keep xs)).
Proof.
  intros xs. induction xs as [|a r IH]; simpl; [auto|].
  intros Hnd. inversion Hnd as [|? ? Hnot Hr]; subst.
  destruct (keep a); simpl; [|auto].
  constructor; [|auto].
  intros Hin. apply Hnot. apply in_map_iff in Hin as (x & Hx & Hin).
  apply filter_In in Hin as [Hin _]. rewrite <- Hx. now apply in_map.
Qed.

(** ** The reminder tick *)

Section Tick.
Context {H : Host}.

Lemma setTasks_run next s :
  exec (setTasks next) s
  = {| tasks := next; formTitle := formTitle s; formNotes := formNotes s;
       formTime := formTime s; activeAlerts := activeAlerts s;
       storage := Some (JSON_stringify (encodeTasks next));
       clockReads := clockReads s; idsCreated := idsCreated s |}.
Proof. reflexivity. Qed.

Lemma eligible_iff now task :
  stamped task ->
  eligible now task = true
  <-> completed task = false /\ notifiedAt task = None
      /\ exists scheduled, getTime task = Some scheduled /\ scheduled <= now.
Proof.
  unfold stamped, eligible, notified, isDue. intros Hne. split.
  - intros He. apply andb_true_iff in He as [Hn Hd].
    apply negb_true_iff, orb_false_iff in Hn as [Hc Hn].
    split; [exact Hc|]. split.
    + destruct (notifiedAt task) as [[|c r]|]; simpl in Hn; congruence.
    + destruct (getTime task) as [x|]; [|discriminate].
      exists x. split; [reflexivity|]. now apply Z.leb_le.
  - intros (Hc & Hn & x & Hx & Hle). rewrite Hc, Hn, Hx. simpl.
    now apply Z.leb_le.
Qed.

Lemma notified_markNotified task t : notified (markNotified task (toISOString t)) = true.
Proof. unfold notified. simpl. apply toISOString_nonEmpty. Qed.

Lemma eligible_markNotified now task t :
  eligible now (markNotified task (toISOString t)) = false.
Proof.
  unfold eligible. rewrite notified_markNotified, orb_true_r. reflexivity.
Qed.

Lemma tickedFrom_id now lo hi p q : tickedFrom now lo hi p q -> id q = id p.
Proof. intros [[_ ->]|[_ (k & _ & ->)]]; reflexivity. Qed.

Lemma tickResults_none now l : forall c,
  existsb (eligible now) l = false -> map snd (tickResults now c l) = l.
Proof.
  induction l as [|task r IH]; intros c; simpl; [reflexivity|].
  destruct (eligible now task); simpl; [discriminate|].
  intros He. now rewrite IH.
Qed.

(** The tasks after a tick: each task of the store went through
    [tickedFrom], and the result is a rearrangement of these. *)
Lemma reminderTick_tasks s :
  let now := clockAt (clockReads s) in
  let s' := exec reminderTick s in
  exists next,
    Forall2 (tickedFrom now (S (clockReads s)) (clockReads s')) (tasks s) next
    /\ Permutation (tasks s') next
    /\ (existsb (eligible now) (tasks s) = false -> s' = advance s (S (clockReads s)) (idsCreated s) []).
Proof.
  cbn zeta. rewrite reminderTick_run. cbn zeta.
  destruct (existsb (eligible (clockAt (clockReads s))) (tasks s)) eqn:He.
  - eexists. rewrite setTasks_run. cbn [clockReads tasks advance].
    split; [|split; [apply sortTasks_perm | discriminate]].
    apply tickResults_snd; lia.
  - exists (tasks s). split; [|split; [reflexivity | reflexivity]].
    rewrite <- (tickResults_none _ _ (S (clockReads s)) He) at 2.
    apply tickResults_snd; cbn [advance clockReads]; [lia|].
    unfold firedCount. clear -He. induction (tasks s) as [|t r IH]; simpl in *; [lia|].
    destruct (eligible (clockAt (clockReads s)) t); simpl in *; [discriminate | auto].
Qed.

(** The alerts of a tick: one for each task that met the trigger
    condition, in the order of the store. *)
Lemma reminderTick_alerts s :
  let now := clockAt (clockReads s) in
  exists fired,
    activeAlerts (exec reminderTick s) = (activeAlerts s ++ fired)%list
    /\ map taskId fired = map id (filter (eligible now) (tasks s)).
Proof.
  cbn zeta. rewrite reminderTick_run. cbn zeta.
  destruct (existsb (eligible (clockAt (clockReads s))) (tasks s)) eqn:He.
  - eexists. rewrite setTasks_run. cbn [activeAlerts advance].
    split; [reflexivity | apply tickAlerts_taskId].
  - exists []. cbn [activeAlerts advance]. split; [reflexivity|].
    clear -He. induction (tasks s) as [|t r IH]; simpl in *; [reflexivity|].
    destruct (eligible (clockAt (clockReads s)) t); simpl in *; [discriminate | auto].
Qed.
End Tick.

Section TickClaims.
Context {H : Host}.

(** C1. A task of the store that is incomplete, has [notifiedAt = null] and
    is scheduled at or before the instant the tick reads gets, in one tick,
    [notifiedAt] set to the time read during that tick, and exactly one
    alert is emitted for it; the next tick emits no alert for it and leaves
    it as the first tick marked it. The ids of the store are distinct, as
    the data model has them. *)
Theorem reminderTick_alerts_once (s : AppState) (t : Task) (scheduled : Z) :
  In t (tasks s) ->
  NoDup (map id (tasks s)) ->
  completed t = false ->
  notifiedAt t = None ->
  getTime t = Some scheduled ->
  scheduled <= clockAt (clockReads s) ->
  let s1 := exec reminderTick s in
  let s2 := exec reminderTick s1 in
  exists k fired fired',
    (clockReads s < k < clockReads s1)%nat
    /\ In (markNotified t (toISOString (clockAt k))) (tasks s1)
    /\ activeAlerts s1 = (activeAlerts s ++ fired)%list
    /\ count_occ string_dec (map taskId fired) (id t) = 1%nat
    /\ activeAlerts s2 = (activeAlerts s1 ++ fired')%list
    /\ count_occ string_dec (map taskId fired') (id t) = 0%nat
    /\ In (markNotified t (toISOString (clockAt k))) (tasks s2)
    /\ (forall t', In t' (tasks s2) -> id t' = id t ->
                   t' = markNotified t (toISOString (clockAt k))).
Proof.
  intros Hin Hnd Hc Hn Ht Hle s1 s2.
  set (now := clockAt (clockReads s)) in *.
  assert (He : eligible now t = true).
  { unfold eligible, notified, isDue. rewrite Hc, Hn, Ht. simpl.
    now apply Z.leb_le. }
  pose proof (reminderTick_tasks s) as X. cbn zeta in X.
  destruct X as (next & HF & HP & _).
  pose proof (reminderTick_alerts s) as X. cbn zeta in X.
  destruct X as (fired & Ha & Hids).
  pose proof (reminderTick_tasks s1) as X. cbn zeta in X.
  destruct X as (next' & HF' & HP' & _).
  pose proof (reminderTick_alerts s1) as X. cbn zeta in X.
  destruct X as (fired' & Ha' & Hids').
  fold now in HF, Hids. fold s1 in HF, HP, Ha. fold s2 in HF', HP', Ha'.
  set (now1 := clockAt (clockReads s1)) in *.
  destruct (Forall2_In_l _ _ _ _ _ _ HF Hin) as (q & Hq & [[He' _]|[_ (k & Hk & ->)]]);
    [congruence|].
  set (m := markNotified t (toISOString (clockAt k))) in *.
  assert (Hmap : map id next = map id (tasks s)).
  { eapply Forall2_map_eq; [|exact HF]. intros a b. apply tickedFrom_id. }
  assert (Hnd1 : NoDup (map id (tasks s1))).
  { eapply Permutation_NoDup; [symmetry; apply Permutation_map; exact HP|].
    now rewrite Hmap. }
  assert (Hin1 : In m (tasks s1)).
  { eapply Permutation_in; [symmetry; exact HP | exact Hq]. }
  assert (Huniq : forall q', In q' (tasks s1) -> id q' = id t -> q' = m).
  { intros q' Hq' Hid. eapply NoDup_map_inj_in; eauto. }
  exists k, fired, fired'.
  split; [lia|]. split; [exact Hin1|]. split; [exact Ha|]. split.
  { rewrite Hids. apply NoDup_count_occ'.
    - now apply NoDup_map_filter.
    - apply in_map. apply filter_In. auto. }
  split; [exact Ha'|]. split.
  { rewrite Hids'. apply count_occ_not_In. intros Hbad.
    apply in_map_iff in Hbad as (q' & Hid & Hf).
    apply filter_In in Hf as [Hq' Hel].
    rewrite (Huniq q' Hq' Hid) in Hel. unfold m in Hel.
    rewrite eligible_markNotified in Hel. discriminate. }
  split.
  { destruct (Forall2_In_l _ _ _ _ _ _ HF' Hin1) as (q2 & Hq2 & [[_ ->]|[Hel _]]).
    - eapply Permutation_in; [symmetry; exact HP' | exact Hq2].
    - unfold m in Hel. rewrite eligible_markNotified in Hel. discriminate. }
  intros t' Ht' Hid.
  assert (Ht'' : In t' next') by (eapply Permutation_in; eauto).
  destruct (Forall2_In_r _ _ _ _ _ _ HF' Ht'') as (p & Hp & HR).
  assert (Hpm : p = m).
  { apply Huniq; [exact Hp|]. rewrite <- Hid. symmetry. eapply tickedFrom_id; eauto. }
  subst p. destruct HR as [[_ ->]|[Hel _]]; [reflexivity|].
  unfold m in Hel. rewrite eligible_markNotified in Hel. discriminate.
Qed.

(** C10. A tick neither adds nor removes a task and changes no [id],
    [title], [notes], [scheduledFor], [completed] or [createdAt]: the tasks
    after it are a rearrangement of the tasks before it, each either
    untouched or with [notifiedAt] taken from [null] to the ISO string of a
    clock reading. When no task meets the trigger condition the state keeps
    the very same list, and the storage slot is not written. The stored
    [notifiedAt] values are [null] or time stamps, never the empty string. *)
Theorem reminderTick_frame (s : AppState) :
  Forall stamped (tasks s) ->
  let now := clockAt (clockReads s) in
  let s' := exec reminderTick s in
  (exists next,
      Permutation (tasks s') next
      /\ Forall2 (fun p q =>
                    sameButNotifiedAt p q
                    /\ (notifiedAt q = notifiedAt p
                        \/ (notifiedAt p = None
                            /\ exists k, notifiedAt q = Some (toISOString (clockAt k)))))
                 (tasks s) next)
  /\ ((forall task, In task (tasks s) ->
         ~ (completed task = false /\ notifiedAt task = None
            /\ exists scheduled, getTime task = Some scheduled /\ scheduled <= now)) ->
      tasks s' = tasks s /\ storage s' = storage s
      /\ activeAlerts s' = activeAlerts s).
Proof.
  intros Hne now s'.
  pose proof (reminderTick_tasks s) as X. cbn zeta in X.
  destruct X as (next & HF & HP & Hnone).
  fold now in HF, Hnone. fold s' in HF, HP, Hnone.
  split.
  - exists next. split; [exact HP|].
    revert Hne. clear -HF. induction HF as [|p q r r' Hpq Hr IH]; intros Hne.
    + constructor.
    + inversion Hne as [|? ? Hp Hrest]; subst. constructor; [|auto].
      destruct Hpq as [[_ ->]|[He (k & _ & ->)]].
      * split; [repeat split | left; reflexivity].
      * split; [repeat split|]. right. split; [|exists k; reflexivity].
        apply (eligible_iff now p Hp) in He. tauto.
  - intros Hno.
    assert (He : existsb (eligible now) (tasks s) = false).
    { apply not_true_is_false. intros Hex.
      apply existsb_exists in Hex as (task & Hin & He).
      rewrite Forall_forall in Hne.
      apply (eligible_iff now task (Hne task Hin)) in He.
      exact (Hno task Hin He). }
    rewrite (Hnone He). cbn [advance tasks storage activeAlerts].
    rewrite app_nil_r. auto.
Qed.
End TickClaims.

Lemma reminderTick_alerts_once_witness :
  let H := RefHost.host in
  let s1 := exec reminderTick sampleState in
  let s2 := exec reminderTick s1 in
  exists k fired fired',
    (clockReads sampleState < k < clockReads s1)%nat
    /\ In (markNotified dueTask (toISOString (clockAt k))) (tasks s1)
    /\ activeAlerts s1 = (activeAlerts sampleState ++ fired)%list
    /\ count_occ string_dec (map taskId fired) (id dueTask) = 1%nat
    /\ activeAlerts s2 = (activeAlerts s1 ++ fired')%list
    /\ count_occ string_dec (map taskId fired') (id dueTask) = 0%nat
    /\ In (markNotified dueTask (toISOString (clockAt k))) (tasks s2)
    /\ (forall t', In t' (tasks s2) -> id t' = id dueTask ->
                   t' = markNotified dueTask (toISOString (clockAt k))).
Proof.
  intros H.
  apply (reminderTick_alerts_once (H := H) sampleState dueTask 1709250600000).
  - simpl. auto.
  - simpl. repeat constructor; simpl; intuition discriminate.
  - reflexivity.
  - reflexivity.
  - vm_compute. reflexivity.
  - vm_compute. discriminate.
Defined.

Lemma reminderTick_frame_witness :
  let H := RefHost.host in
  let s' := exec reminderTick sampleState in
  exists next,
    Permutation (tasks s') next
    /\ Forall2 (fun p q =>
                  sameButNotifiedAt p q
                  /\ (notifiedAt q = notifiedAt p
                      \/ (notifiedAt p = None
                          /\ exists k, notifiedAt q = Some (toISOString (clockAt k)))))
               (tasks sampleState) next.
Proof.
  intros H.
  apply (reminderTick_frame (H := H) sampleState).
  repeat constructor; simpl; discriminate.
Defined.

(** ** Snoozing *)

Section Snooze.
Context {H : Host}.

Lemma mapM_snoozeTask taskId minutes l : forall s,
  mapM (snoozeTask taskId minutes) l s
  = (snoozeResults taskId minutes (clockReads s) l,
     advance s (matchCount taskId l + clockReads s) (idsCreated s) []).
Proof.
  unfold matchCount.
  induction l as [|task r IH]; intros s; simpl.
  - unfold ret. now rewrite advance_id.
  - unfold bind, snoozeTask.
    destruct (String.eqb (id task) taskId) eqn:He; simpl.
    + unfold bind, Date_now, ret. rewrite IH. simpl.
      unfold advance. simpl. do 3 f_equal. lia.
    + unfold ret. rewrite IH. reflexivity.
Qed.

Lemma handleSnoozeTask_run taskId minutes s :
  tasks (exec (handleSnoozeTask taskId minutes) s)
  = sortTasks (snoozeResults taskId minutes (clockReads s) (tasks s)).
Proof.
  unfold exec, handleSnoozeTask, bind at 1, getTasks at 1.
  unfold bind at 1. rewrite mapM_snoozeTask. reflexivity.
Qed.

Lemma snoozeResults_id taskId minutes l : forall c,
  map id (snoozeResults taskId minutes c l) = map id l.
Proof.
  induction l as [|task r IH]; intros c; simpl; [reflexivity|].
  destruct (String.eqb (id task) taskId); simpl; now rewrite IH.
Qed.

Lemma snoozeResults_absent taskId minutes l : forall c,
  ~ In taskId (map id l) -> snoozeResults taskId minutes c l = l.
Proof.
  induction l as [|task r IH]; intros c Hn; simpl in *; [reflexivity|].
  destruct (String.eqb_spec (id task) taskId) as [He|He]; simpl.
  - exfalso. auto.
  - rewrite IH; auto.
Qed.

Lemma snoozeResults_first t minutes l : forall c,
  NoDup (map id l) -> In t l ->
  In (snoozed minutes t (clockAt c)) (snoozeResults (id t) minutes c l).
Proof.
  induction l as [|task r IH]; intros c Hnd Hin; simpl in *; [tauto|].
  inversion Hnd as [|? ? Hnot Hr]; subst.
  destruct Hin as [->|Hin].
  - rewrite String.eqb_refl. simpl. auto.
  - destruct (String.eqb_spec (id task) (id t)) as [He|He]; simpl.
    + exfalso. apply Hnot. rewrite He. now apply in_map.
    + right. now apply IH.
Qed.
End Snooze.

(** ** Applying a template *)

Section ApplyTemplate.
Context {H : Host}.

Lemma mapM_materialize now items : forall s,
  mapM (materialize now) items s
  = (materialized now (clockReads s) (idsCreated s) items,
     advance s (List.length items + clockReads s)
       (List.length items + idsCreated s) []).
Proof.
  induction items as [|item r IH]; intros s; simpl.
  - unfold ret. now rewrite advance_id.
  - unfold bind, materialize. unfold bind, createId, Date_now, ret.
    rewrite IH. simpl. unfold advance. simpl. do 3 f_equal; lia.
Qed.

Lemma handleApplyTemplate_run template s :
  tasks (exec (handleApplyTemplate template) s)
  = sortTasks (tasks s
               ++ materialized (clockAt (clockReads s)) (S (clockReads s))
                    (idsCreated s) (template_tasks template))%list.
Proof.
  unfold exec, handleApplyTemplate, bind at 1, Date_now at 1.
  unfold bind at 1, getTasks at 1. unfold bind at 1.
  rewrite mapM_materialize. reflexivity.
Qed.
End ApplyTemplate.

(** ** The handlers *)

Section HandlerClaims.
Context {H : Host}.

(** X23. Where the host reads the wall-clock time [minutes] minutes after
    the local reading of the clock with the offset in force at that
    reading (no clock change lies between the two), snoozing a task of the
    store (ids distinct) leaves in the store that task with [scheduledFor]
    the instant read from the clock plus [minutes] minutes,
    [notifiedAt = null] and [completed = false], and no other task with its
    id. Once the host reads the new [scheduledFor] back as that instant, the
    task meets the trigger condition of the tick exactly from that instant
    on. *)
Theorem handleSnoozeTask_rearms (s : AppState) (t : Task) (minutes : Z) :
  In t (tasks s) ->
  NoDup (map id (tasks s)) ->
  let now := clockAt (clockReads s) in
  localOffset (localTime now + minutes * msPerMinute) = timezoneOffset now ->
  let due := now + minutes * msPerMinute in
  let s' := exec (handleSnoozeTask (id t) minutes) s in
  let t' := {| id := id t; title := title t; notes := notes t;
               scheduledFor := toISOString due; completed := false;
               notifiedAt := None; createdAt := createdAt t |} in
  In t' (tasks s')
  /\ (forall q, In q (tasks s') -> id q = id t -> q = t')
  /\ (Date_parse (toISOString due) = Some due ->
      forall later, eligible later t' = true <-> due <= later).
Proof.
  intros Hin Hnd now Hoff due s' t'.
  assert (Ht' : t' = snoozed minutes t now).
  { unfold t', snoozed, due. now rewrite setMinutes_getMinutes. }
  assert (Hin' : In t' (tasks s')).
  { unfold s'. rewrite handleSnoozeTask_run.
    eapply Permutation_in; [symmetry; apply sortTasks_perm|].
    rewrite Ht'. now apply snoozeResults_first. }
  split; [exact Hin'|]. split.
  - intros q Hq Hid.
    apply (NoDup_map_inj_in _ _ id (tasks s')); auto.
    unfold s'. rewrite handleSnoozeTask_run.
    eapply Permutation_NoDup;
      [symmetry; apply Permutation_map; apply sortTasks_perm|].
    now rewrite snoozeResults_id.
  - intros Hparse later. unfold eligible, notified, isDue, getTime, t'. simpl.
    rewrite Hparse. apply Z.leb_le.
Qed.

(** C9. For an id that no task of the store has, [handleToggleComplete]
    and [handleDeleteTask] leave the list of tasks as it is, and
    [handleSnoozeTask] leaves the same tasks, none added, removed or
    changed. *)
Theorem absent_id_frame (s : AppState) (taskId : string) (minutes : Z) :
  ~ In taskId (map id (tasks s)) ->
  tasks (exec (handleToggleComplete taskId) s) = tasks s
  /\ tasks (exec (handleDeleteTask taskId) s) = tasks s
  /\ Permutation (tasks (exec (handleSnoozeTask taskId minutes) s)) (tasks s).
Proof.
  intros Hn. split; [|split].
  - cbn. induction (tasks s) as [|task r IH]; simpl in *; [reflexivity|].
    unfold toggleTask at 1.
    destruct (String.eqb_spec (id task) taskId) as [He|He]; [exfalso; auto|].
    f_equal. apply IH. tauto.
  - cbn. induction (tasks s) as [|task r IH]; simpl in *; [reflexivity|].
    destruct (String.eqb_spec (id task) taskId) as [He|He]; [exfalso; auto|].
    simpl. f_equal. apply IH. tauto.
  - rewrite handleSnoozeTask_run, snoozeResults_absent by exact Hn.
    apply sortTasks_perm.
Qed.

(** [handleApplyTemplate] schedules a blueprint at its next occurrence,
    when the clock shows the blueprint's time of day today. *)
Lemma templateTarget_nextOccurrence (now : Z) (item : TemplateTask) :
  onTheClock (localDay now) (hour item) (minute item) ->
  templateTarget now item = nextOccurrence now (hour item) (minute item).
Proof.
  intros Hc. unfold templateTarget, nextOccurrence.
  rewrite setHours_atLocal. fold (localDay now).
  set (today := atLocal (localDay now) (hour item) (minute item)).
  destruct (Z.leb_spec today now) as [Hle|Hle];
    destruct (Z.ltb_spec now today) as [Hlt|Hlt]; try lia.
  now apply addDays_atLocal.
Qed.

(** With one offset all year, [atLocal day h m] reads [h]:[m]:00.000 on
    day [day] of the local calendar. *)
Lemma atLocal_reading (offset : Z) (day h m : Z) :
  fixedOffset offset ->
  0 <= h < 24 -> 0 <= m < 60 ->
  let t := atLocal day h m in
  localDay t = day /\ getHours t = h /\ getMinutes t = m
  /\ getSeconds t = 0 /\ getMilliseconds t = 0.
Proof.
  intros Hf Hh Hm t.
  assert (Hl : localTime t = day * msPerDay + (h * msPerHour + m * msPerMinute)).
  { unfold t. rewrite (onTheClock_fixed offset day h m Hf).
    unfold MakeDate, MakeTime. lia. }
  unfold localDay, getHours, getMinutes, getSeconds, getMilliseconds.
  rewrite Hl. unfold msPerDay, msPerHour, msPerMinute.
  assert (Hmod : (day * 86400000 + (h * 3600000 + m * 60000)) mod 86400000
                 = h * 3600000 + m * 60000).
  { symmetry. apply Z.mod_unique_pos with day; lia. }
  assert (Hmodh : (day * 86400000 + (h * 3600000 + m * 60000)) mod 3600000
                  = m * 60000).
  { symmetry. apply Z.mod_unique_pos with (day * 24 + h); lia. }
  assert (Hmodm : (day * 86400000 + (h * 3600000 + m * 60000)) mod 60000 = 0).
  { symmetry. apply Z.mod_unique_pos with (day * 1440 + h * 60 + m); lia. }
  assert (Hmods : (day * 86400000 + (h * 3600000 + m * 60000)) mod 1000 = 0).
  { symmetry. apply Z.mod_unique_pos with (day * 86400 + h * 3600 + m * 60); lia. }
  rewrite Hmod, Hmodh, Hmodm, Hmods.
  repeat split.
  - symmetry. apply Z.div_unique_pos with (h * 3600000 + m * 60000); lia.
  - symmetry. apply Z.div_unique_pos with (m * 60000); lia.
  - symmetry. apply Z.div_unique_pos with 0; lia.
Qed.

(** With one offset all year, the next occurrence lies in the future, at
    most a day ahead. *)
Lemma nextOccurrence_future (offset : Z) (now h m : Z) :
  fixedOffset offset ->
  0 <= h < 24 -> 0 <= m < 60 ->
  now < nextOccurrence now h m <= now + msPerDay.
Proof.
  intros Hf Hh Hm. unfold nextOccurrence, atLocal, localDay.
  rewrite !(UTC_fixed offset _ Hf), (localTime_fixed offset now Hf).
  unfold MakeDate, MakeTime.
  pose proof (Z.div_mod (now - offset * msPerMinute) msPerDay) as Hd.
  pose proof (Z.mod_pos_bound (now - offset * msPerMinute) msPerDay) as Hb.
  unfold msPerDay, msPerHour, msPerMinute in *.
  destruct (Z.ltb_spec now
              ((now - offset * 60000) / 86400000 * 86400000
               + (h * 3600000 + m * 60000 + 0 * 1000 + 0) + offset * 60000)); lia.
Qed.


Lemma handleAddTask_run (s : AppState) (scheduled : Z) :
  nonEmpty (trim (formTitle s)) = true ->
  nonEmpty (formTime s) = true ->
  Date_parse (formTime s) = Some scheduled ->
  tasks (exec handleAddTask s)
  = sortTasks (tasks s ++ [ {| id := idAt (idsCreated s);
                               title := trim (formTitle s);
                               notes := trim (formNotes s);
                               scheduledFor := toISOString scheduled;
                               completed := false; notifiedAt := None;
                               createdAt := toISOString (clockAt (clockReads s)) |} ])%list.
Proof.
  intros Ht Hf Hp. unfold exec, handleAddTask. rewrite Ht, Hf, Hp. reflexivity.
Qed.

(** C6. [handleAddTask] returns the state it was given when the title of the
    form is empty or whitespace-only or the time of the form does not parse
    to a valid instant; otherwise the tasks after it are those before it and
    one new task, incomplete and with [notifiedAt = null], carrying the
    trimmed title and notes and the parsed instant. The host reads the empty
    string as an invalid date. *)
Theorem handleAddTask_validates (s : AppState) :
  Date_parse EmptyString = None ->
  let s' := exec handleAddTask s in
  ((allWhiteSpace (formTitle s) = true \/ Date_parse (formTime s) = None) -> s' = s)
  /\ (forall scheduled,
        allWhiteSpace (formTitle s) = false ->
        Date_parse (formTime s) = Some scheduled ->
        exists newTask,
          Permutation (tasks s') (tasks s ++ [newTask])%list
          /\ completed newTask = false
          /\ notifiedAt newTask = None
          /\ title newTask = trim (formTitle s)
          /\ notes newTask = trim (formNotes s)
          /\ scheduledFor newTask = toISOString scheduled).
Proof.
  intros Hempty s'. split.
  - intros [Hw|Hp]; unfold s', exec, handleAddTask.
    + apply trim_empty_iff in Hw. rewrite Hw. reflexivity.
    + destruct (negb (nonEmpty (trim (formTitle s))) || negb (nonEmpty (formTime s)));
        [reflexivity|]. rewrite Hp. reflexivity.
  - intros scheduled Hw Hp.
    assert (Ht : nonEmpty (trim (formTitle s)) = true).
    { apply nonEmpty_true_iff. intros He. apply trim_empty_iff in He. congruence. }
    assert (Hf : nonEmpty (formTime s) = true).
    { apply nonEmpty_true_iff. intros He. rewrite He in Hp. congruence. }
    unfold s'. rewrite (handleAddTask_run s scheduled Ht Hf Hp).
    eexists. split; [apply sortTasks_perm|]. repeat split.
Qed.
End HandlerClaims.

(** ** Reading the storage slot *)

Lemma assoc_setField (k k' : string) (v : json) (fs : list (string * json)) :
  assoc k (setField k' v fs) = if String.eqb k k' then Some v else assoc k fs.
Proof.
  induction fs as [|[k0 v0] r IH]; simpl.
  - reflexivity.
  - destruct (String.eqb_spec k' k0) as [->|Hne]; simpl.
    + destruct (String.eqb k k0); reflexivity.
    + rewrite IH. destruct (String.eqb_spec k k0) as [->|Hne'].
      * destruct (String.eqb_spec k0 k'); [congruence | reflexivity].
      * reflexivity.
Qed.

Section Reading.
Context {H : Host}.

Lemma fillRecord_defaultFilled (fs : list (string * json)) :
  defaultFilled (JObj fs) (fillRecord (JObj fs)).
Proof.
  unfold defaultFilled, fillRecord. cbn [getField ownFields].
  repeat split.
  - now rewrite !assoc_setField.
  - now rewrite !assoc_setField.
  - intros k Hk1 Hk2. rewrite !assoc_setField.
    destruct (String.eqb_spec k "notifiedAt"); [congruence|].
    destruct (String.eqb_spec k "notes"); [congruence | reflexivity].
Qed.

Lemma keepRecord_wellFormed (r : json) : wellFormedRecord r -> keepRecord r = true.
Proof.
  intros (fs & i & t & sch & -> & Hi & Hi' & Ht & Ht' & Hs & Hs').
  unfold keepRecord. cbn [getField truthy]. rewrite Hi, Ht, Hs. cbn [truthy].
  apply nonEmpty_true_iff in Hi', Ht', Hs'. rewrite Hi', Ht', Hs'. reflexivity.
Qed.

Lemma keepRecord_missing (r : json) :
  getField "id" r = None \/ getField "title" r = None
  \/ getField "scheduledFor" r = None ->
  keepRecord r = false.
Proof.
  unfold keepRecord. intros [Hm|[Hm|Hm]]; rewrite Hm; cbn [truthy];
    rewrite ?andb_false_r; reflexivity.
Qed.

Lemma keepRecord_object (r : json) :
  keepRecord r = true -> exists fs, r = JObj fs.
Proof.
  unfold keepRecord. destruct r; cbn [getField truthy];
    rewrite ?andb_false_r, ?andb_false_l; try discriminate.
  intros _. eexists. reflexivity.
Qed.

Lemma wellFormedRecord_encodeTask (t : Task) :
  id t <> EmptyString -> title t <> EmptyString -> scheduledFor t <> EmptyString ->
  wellFormedRecord (encodeTask t).
Proof.
  intros Hi Ht Hs. unfold wellFormedRecord, encodeTask.
  eexists. exists (id t), (title t), (scheduledFor t).
  split; [reflexivity|]. cbn. auto 10.
Qed.

Lemma fillRecord_encodeTask (t : Task) : fillRecord (encodeTask t) = encodeTask t.
Proof.
  unfold fillRecord, encodeTask. cbn.
  destruct (notifiedAt t); reflexivity.
Qed.

Lemma persistTasks_storage (l : list Task) (s : AppState) :
  storage (exec (persistTasks l) s) = Some (JSON_stringify (JArr (map encodeTask l))).
Proof. reflexivity. Qed.

Lemma readTasks_array (raw : string) (parsed : list json) :
  raw <> EmptyString ->
  JSON_parse raw = Some (JArr parsed) ->
  readTasks (Some raw) = map fillRecord (filter keepRecord parsed).
Proof.
  intros Hne Hp. unfold readTasks.
  apply nonEmpty_true_iff in Hne. rewrite Hne, Hp. reflexivity.
Qed.

(** C3. Reading back the serialization of a list of well-formed records
    (non-empty [id], [title] and [scheduledFor]) gives the records in the
    same order, each with its optional fields filled by default; for the
    tasks that [persistTasks] writes, which carry all their fields, the
    list read is the list written. The host refuses the empty text and
    reads back the text it wrote for this list. *)
Theorem readTasks_roundtrip (rs : list json) :
  Forall wellFormedRecord rs ->
  JSON_parse EmptyString = None ->
  JSON_parse (JSON_stringify (JArr rs)) = Some (JArr rs) ->
  let loaded := readTasks (Some (JSON_stringify (JArr rs))) in
  Forall2 defaultFilled rs loaded
  /\ (forall (l : list Task) (s : AppState),
        rs = map encodeTask l ->
        readTasks (storage (exec (persistTasks l) s)) = map encodeTask l).
Proof.
  intros Hwf Hempty Hrt loaded.
  assert (Hne : JSON_stringify (JArr rs) <> EmptyString) by congruence.
  assert (Hl : loaded = map fillRecord rs).
  { unfold loaded. rewrite (readTasks_array _ rs Hne Hrt). f_equal.
    clear -Hwf. induction Hwf as [|r l Hr Hl IH]; simpl; [reflexivity|].
    rewrite (keepRecord_wellFormed r Hr). now f_equal. }
  split.
  - rewrite Hl. clear -Hwf. induction Hwf as [|r l Hr Hl IH]; simpl; constructor; auto.
    destruct Hr as (fs & ? & ? & ? & -> & _). apply fillRecord_defaultFilled.
  - intros l s ->. rewrite persistTasks_storage. fold loaded. rewrite Hl.
    rewrite map_map. apply map_ext. apply fillRecord_encodeTask.
Qed.

(** C7. [readTasks] returns the empty list when the slot is absent or
    empty, when its content does not parse, and when it parses to something
    other than an array. On an array it returns, in order, the records that
    pass the filter, each with [notes] and [notifiedAt] filled by default
    and its other fields as stored; a record that lacks [id], [title] or
    [scheduledFor] does not pass the filter. It returns a list in every
    case. *)
Theorem readTasks_drops_and_defaults :
  readTasks None = []
  /\ readTasks (Some EmptyString) = []
  /\ (forall raw, JSON_parse raw = None -> readTasks (Some raw) = [])
  /\ (forall raw v, JSON_parse raw = Some v ->
                    (forall items, v <> JArr items) -> readTasks (Some raw) = [])
  /\ (forall raw parsed,
        raw <> EmptyString -> JSON_parse raw = Some (JArr parsed) ->
        exists kept,
          readTasks (Some raw) = map fillRecord kept
          /\ kept = filter keepRecord parsed
          /\ (forall r, In r parsed ->
                getField "id" r = None \/ getField "title" r = None
                \/ getField "scheduledFor" r = None ->
                ~ In r kept)
          /\ Forall (fun r => defaultFilled r (fillRecord r)) kept).
Proof.
  split; [reflexivity|]. split; [reflexivity|]. split; [|split].
  - intros raw Hp. unfold readTasks. rewrite Hp. now destruct (negb (nonEmpty raw)).
  - intros raw v Hp Hv. unfold readTasks. rewrite Hp.
    destruct (negb (nonEmpty raw)); [reflexivity|].
    destruct v; try reflexivity. exfalso. eapply Hv. reflexivity.
  - intros raw parsed Hne Hp. exists (filter keepRecord parsed).
    split; [now apply readTasks_array|]. split; [reflexivity|]. split.
    + intros r _ Hm Hin. apply filter_In in Hin as [_ Hk].
      rewrite (keepRecord_missing r Hm) in Hk. discriminate.
    + apply Forall_forall. intros r Hin. apply filter_In in Hin as [_ Hk].
      destruct (keepRecord_object r Hk) as [fs ->]. apply fillRecord_defaultFilled.
Qed.

(** The state after [resetDay]: no task, and the slot rewritten by the
    persistence effect with the serialization of the empty list. *)
Lemma resetDay_run (s : AppState) :
  tasks (exec resetDay s) = []
  /\ storage (exec resetDay s) = Some (JSON_stringify (JArr [])).
Proof. split; reflexivity. Qed.

(** After [resetDay], [readTasks] returns the empty list. *)
Lemma resetDay_readTasks (s : AppState) :
  JSON_parse (JSON_stringify (JArr [])) = Some (JArr []) ->
  readTasks (storage (exec resetDay s)) = [].
Proof.
  intros Hp. destruct (resetDay_run s) as [_ ->]. unfold readTasks.
  rewrite Hp. now destruct (negb (nonEmpty (JSON_stringify (JArr [])))).
Qed.
End Reading.

(** ** The canonical order after each operation *)

Section CanonicalAfter.
Context {H : Host}.
(** The host reads back the dates the program writes. *)
Hypothesis toISOString_valid : forall t, Date_parse (toISOString t) <> None.

Lemma handleAddTask_canonical (s : AppState) :
  Forall validDate (tasks s) -> canonical (tasks s) ->
  canonical (tasks (exec handleAddTask s)).
Proof.
  intros Hv Hc. unfold exec, handleAddTask.
  destruct (negb (nonEmpty (trim (formTitle s))) || negb (nonEmpty (formTime s)));
    [exact Hc|].
  destruct (Date_parse (formTime s)) as [scheduled|]; [|exact Hc].
  cbn. apply sortTasks_canonical. apply Forall_app. split; [exact Hv|].
  constructor; [|constructor]. apply toISOString_valid.
Qed.

Lemma handleDeleteTask_canonical (s : AppState) (taskId : string) :
  canonical (tasks s) -> canonical (tasks (exec (handleDeleteTask taskId) s)).
Proof. intros Hc. cbn. now apply canonical_filter. Qed.

Lemma handleSnoozeTask_canonical (s : AppState) (taskId : string) (minutes : Z) :
  Forall validDate (tasks s) ->
  canonical (tasks (exec (handleSnoozeTask taskId minutes) s)).
Proof.
  intros Hv. rewrite handleSnoozeTask_run. apply sortTasks_canonical.
  generalize (clockReads s). induction Hv as [|task r Ht Hr IH]; intros c; simpl.
  - constructor.
  - destruct (negb (String.eqb (id task) taskId)); constructor; auto.
    apply toISOString_valid.
Qed.

Lemma handleApplyTemplate_canonical (s : AppState) (template : Template) :
  Forall validDate (tasks s) ->
  canonical (tasks (exec (handleApplyTemplate template) s)).
Proof.
  intros Hv. rewrite handleApplyTemplate_run. apply sortTasks_canonical.
  apply Forall_app. split; [exact Hv|].
  generalize (S (clockReads s)) (idsCreated s).
  induction (template_tasks template) as [|item r IH]; intros c i; simpl;
    constructor; auto.
  apply toISOString_valid.
Qed.

Lemma reminderTick_canonical (s : AppState) :
  Forall validDate (tasks s) -> canonical (tasks s) ->
  canonical (tasks (exec reminderTick s)).
Proof.
  intros Hv Hc. rewrite reminderTick_run. cbn zeta.
  destruct (existsb (eligible (clockAt (clockReads s))) (tasks s)); [|exact Hc].
  rewrite setTasks_run. cbn [tasks]. apply sortTasks_canonical.
  generalize (S (clockReads s)). clear Hc.
  induction Hv as [|task r Ht Hr IH]; intros c; simpl.
  - constructor.
  - destruct (eligible (clockAt (clockReads s)) task); simpl; constructor; auto.
Qed.
End CanonicalAfter.

(** ** The [notifiedAt] values of the store

    Every operation keeps [notifiedAt] of every task [null] or a non-empty
    string: only a slot written by something else can bring in an empty
    one. *)

Section Stamped.
Context {H : Host}.

Lemma stamped_sortTasks (l : list Task) :
  Forall stamped l -> Forall stamped (sortTasks l).
Proof.
  intros Hl. eapply Permutation_Forall; [symmetry; apply sortTasks_perm | exact Hl].
Qed.

Lemma stamped_markNotified (task : Task) (t : Z) :
  stamped (markNotified task (toISOString t)).
Proof.
  unfold stamped. simpl. intros He. inversion He as [Hs].
  pose proof (toISOString_nonEmpty t) as Hn. rewrite Hs in Hn. discriminate.
Qed.

Lemma reminderTick_stamped (s : AppState) :
  Forall stamped (tasks s) -> Forall stamped (tasks (exec reminderTick s)).
Proof.
  intros Hs. rewrite reminderTick_run. cbn zeta.
  destruct (existsb (eligible (clockAt (clockReads s))) (tasks s)); [|exact Hs].
  rewrite setTasks_run. cbn [tasks]. apply stamped_sortTasks.
  generalize (S (clockReads s)).
  induction Hs as [|task r Ht Hr IH]; intros c; simpl.
  - constructor.
  - destruct (eligible (clockAt (clockReads s)) task); simpl; constructor; auto.
    apply stamped_markNotified.
Qed.

Lemma handleAddTask_stamped (s : AppState) :
  Forall stamped (tasks s) -> Forall stamped (tasks (exec handleAddTask s)).
Proof.
  intros Hs. unfold exec, handleAddTask.
  destruct (negb (nonEmpty (trim (formTitle s))) || negb (nonEmpty (formTime s)));
    [exact Hs|].
  destruct (Date_parse (formTime s)) as [scheduled|]; [|exact Hs].
  cbn. apply stamped_sortTasks. apply Forall_app. split; [exact Hs|].
  constructor; [|constructor]. unfold stamped. simpl. discriminate.
Qed.

Lemma handleToggleComplete_stamped (s : AppState) (taskId : string) :
  Forall stamped (tasks s) ->
  Forall stamped (tasks (exec (handleToggleComplete taskId) s)).
Proof.
  intros Hs. cbn. induction Hs as [|task r Ht Hr IH]; simpl; constructor; auto.
  unfold toggleTask. destruct (String.eqb (id task) taskId); exact Ht.
Qed.

Lemma handleDeleteTask_stamped (s : AppState) (taskId : string) :
  Forall stamped (tasks s) ->
  Forall stamped (tasks (exec (handleDeleteTask taskId) s)).
Proof.
  intros Hs. cbn. rewrite Forall_forall in *. intros task Hin.
  apply filter_In in Hin as [Hin _]. auto.
Qed.

Lemma handleSnoozeTask_stamped (s : AppState) (taskId : string) (minutes : Z) :
  Forall stamped (tasks s) ->
  Forall stamped (tasks (exec (handleSnoozeTask taskId minutes) s)).
Proof.
  intros Hs. rewrite handleSnoozeTask_run. apply stamped_sortTasks.
  generalize (clockReads s). induction Hs as [|task r Ht Hr IH]; intros c; simpl.
  - constructor.
  - destruct (negb (String.eqb (id task) taskId)); constructor; auto.
    unfold stamped. simpl. discriminate.
Qed.

Lemma handleApplyTemplate_stamped (s : AppState) (template : Template) :
  Forall stamped (tasks s) ->
  Forall stamped (tasks (exec (handleApplyTemplate template) s)).
Proof.
  intros Hs. rewrite handleApplyTemplate_run. apply stamped_sortTasks.
  apply Forall_app. split; [exact Hs|].
  generalize (S (clockReads s)) (idsCreated s).
  induction (template_tasks template) as [|item r IH]; intros c i; simpl;
    constructor; auto.
  unfold stamped. simpl. discriminate.
Qed.
End Stamped.

(** C2, on [handleToggleComplete]: marking the first of two incomplete tasks
    as completed leaves it first, before an incomplete task; the list, in
    canonical order before, is not in canonical order after. *)
Theorem handleToggleComplete_not_canonical :
  let H := RefHost.host in
  canonical (tasks twoOpenTasks)
  /\ tasks (exec (handleToggleComplete "t-1") twoOpenTasks)
     = [ {| id := "t-1"; title := "Stretch"; notes := "";
            scheduledFor := "2024-02-29T23:50:00.000Z"; completed := true;
            notifiedAt := None; createdAt := "2024-02-29T20:00:00.000Z" |};
         laterTask ]
  /\ ~ canonical (tasks (exec (handleToggleComplete "t-1") twoOpenTasks)).
Proof.
  intros H. split; [|split].
  - unfold canonical. cbn [tasks twoOpenTasks].
    constructor; [constructor; constructor|]. constructor; [|constructor].
    right. split; [reflexivity|].
    exists 1709250600000, 1709294400000. repeat split. discriminate.
  - reflexivity.
  - intros Hc. cbn in Hc. inversion Hc as [|? ? _ Hall]; subst.
    inversion Hall as [|? ? [[Hx _]|[Hx _]] _]; discriminate.
Qed.

(** C8. On the saved sample store, whose slot holds the text of its two
    tasks, [resetDay] leaves no task; its [removeItem] alone erases the
    slot, but after the whole of [resetDay] the slot is not absent: the
    persistence effect that follows the change of state has written the
    text of the empty list into it. *)
Theorem resetDay_slot_not_erased :
  let H := RefHost.host in
  storage savedState <> None
  /\ storage (exec removeItem savedState) = None
  /\ tasks (exec resetDay savedState) = []
  /\ storage (exec resetDay savedState) = Some "[]".
Proof.
  intros H. split; [discriminate|]. repeat split.
Qed.

(** ** Clock changes *)

Example Berlin_summer_2024 :
  toISOString (Berlin.summerStart 2024) = "2024-03-31T01:00:00.000Z"
  /\ toISOString (Berlin.summerEnd 2024) = "2024-10-27T01:00:00.000Z".
Proof. vm_compute. split; reflexivity. Qed.

(** C5. In Berlin at 02:58 of summer time in the night the clocks go back,
    the button [Snooze 5 min] leaves the task scheduled at 02:03 UTC, 65
    minutes after the instant 00:58 UTC that the handler read, where the
    instant plus 5 minutes is 01:03 UTC: [setMinutes] moved the wall-clock
    reading to 03:03, which the clock shows in winter time only. *)
Theorem handleSnoozeTask_clock_change :
  let H := Berlin.host beforeClocksGoBack in
  let now := clockAt (clockReads sampleState) in
  toISOString now = "2024-10-27T00:58:00.000Z"
  /\ getHours now = 2 /\ getMinutes now = 58
  /\ toISOString (now + 5 * msPerMinute) = "2024-10-27T01:03:00.000Z"
  /\ tasks (exec (dispatch (ClickSnooze "t-1")) sampleState)
     = [ {| id := "t-1"; title := "Stretch"; notes := "";
            scheduledFor := "2024-10-27T02:03:00.000Z"; completed := false;
            notifiedAt := None; createdAt := "2024-02-29T20:00:00.000Z" |};
         doneTask ].
Proof. vm_compute. repeat split. Qed.

(** An hour later, at 02:30 of winter time, the same button schedules the
    task at 00:35 UTC, 55 minutes before the instant the handler read: the
    wall-clock reading 02:35 is shown twice that night and the host reads it
    as the first. The task is due at once. *)
Example handleSnoozeTask_into_the_past :
  let H := Berlin.host afterClocksGoBack in
  let now := clockAt (clockReads sampleState) in
  toISOString now = "2024-10-27T01:30:00.000Z"
  /\ map scheduledFor (tasks (exec (dispatch (ClickSnooze "t-1")) sampleState))
     = [ "2024-10-27T00:35:00.000Z"; "2024-02-29T07:20:00.000Z" ]
  /\ map (eligible now) (tasks (exec (dispatch (ClickSnooze "t-1")) sampleState))
     = [ true; false ].
Proof. vm_compute. repeat split. Qed.


Example handleApplyTemplate_skipped_time_reading :
  let H := Berlin.host dayClocksWentForward in
  let now := clockAt (clockReads emptyStore) in
  toISOString now = "2024-03-31T08:00:00.000Z"
  /\ map scheduledFor (tasks (exec (handleApplyTemplate nightShift) emptyStore))
     = [ "2024-04-01T01:30:00.000Z" ]
  /\ getHours (templateTarget now {| item_title := "Handover"; item_notes := "";
                                     hour := 2; minute := 30 |}) = 3
  /\ toISOString (nextOccurrence now 2 30) = "2024-04-01T00:30:00.000Z"
  /\ ~ onTheClock (localDay now) 2 30.
Proof.
  intros H now. repeat split; try (vm_compute; reflexivity).
  unfold onTheClock. vm_compute. discriminate.
Qed.


Example handleApplyTemplate_clocks_go_back :
  let H := Berlin.host dayBeforeClocksGoBack in
  map scheduledFor (tasks (exec (dispatch (ClickTemplate 0)) emptyStore))
  = [ "2024-10-27T06:00:00.000Z"; "2024-10-27T06:20:00.000Z";
      "2024-10-27T06:45:00.000Z" ].
Proof. vm_compute. reflexivity. Qed.

(** Half a minute before 02:59 of that night [getDefaultFormTime] shows
    03:00, which the clock reaches in winter time, 61 and a half minutes
    later. *)
Example defaultFormTime_clocks_go_back :
  let H := Berlin.host beforeClocksGoBack in
  let now0 := clockAt 30 in
  let m := getMinutes now0 in
  let t := setSeconds (setMinutes now0 (m + (5 - m mod 5))) 0 0 in
  toISOString now0 = "2024-10-27T00:58:30.000Z"
  /\ defaultFormTime now0 = "2024-10-27T03:00"
  /\ defaultFormTime now0 = toLocalInputValue t
  /\ toISOString t = "2024-10-27T02:00:00.000Z".
Proof. vm_compute. repeat split. Qed.

(** ** White space beyond ASCII *)

Example trim_unicode :
  trim (noBreakSpace ++ " Read" ++ emSpace ++ " ") = "Read"
  /\ allWhiteSpace (noBreakSpace ++ emSpace) = true
  /\ trim ("Read " ++ bullet ++ " ") = "Read " ++ bullet.
Proof. vm_compute. repeat split. Qed.

(** A title of a no-break space and an em space is whitespace-only: the
    form is not submitted. *)
Example handleAddTask_blank_title :
  let H := RefHost.host in
  exec handleAddTask blankTitleForm = blankTitleForm.
Proof. reflexivity. Qed.

(** ** The claims on the reference host *)

Lemma handleSnoozeTask_rearms_witness :
  let H := RefHost.host in
  let s' := exec (handleSnoozeTask "t-1" 5) sampleState in
  let t' := {| id := "t-1"; title := "Stretch"; notes := "";
               scheduledFor := "2024-03-01T00:04:59.123Z"; completed := false;
               notifiedAt := None; createdAt := "2024-02-29T20:00:00.000Z" |} in
  In t' (tasks s')
  /\ (forall q, In q (tasks s') -> id q = "t-1" -> q = t')
  /\ (forall later, eligible later t' = true <-> 1709251499123 <= later).
Proof.
  intros H.
  pose proof (handleSnoozeTask_rearms (H := H) sampleState dueTask 5) as X.
  cbn zeta in X.
  destruct X as (X1 & X2 & X3).
  - simpl. auto.
  - simpl. repeat constructor; simpl; intuition discriminate.
  - reflexivity.
  - split; [exact X1|]. split; [exact X2|]. apply X3. vm_compute. reflexivity.
Defined.

Lemma absent_id_frame_witness :
  let H := RefHost.host in
  tasks (exec (handleToggleComplete "t-9") sampleState) = tasks sampleState
  /\ tasks (exec (handleDeleteTask "t-9") sampleState) = tasks sampleState
  /\ Permutation (tasks (exec (handleSnoozeTask "t-9" 5) sampleState))
                 (tasks sampleState).
Proof.
  intros H. apply (absent_id_frame (H := H) sampleState "t-9" 5).
  simpl. intuition discriminate.
Defined.

Lemma handleAddTask_validates_witness :
  let H := RefHost.host in
  exists newTask,
    Permutation (tasks (exec handleAddTask filledForm)) (tasks filledForm ++ [newTask])%list
    /\ completed newTask = false
    /\ notifiedAt newTask = None
    /\ title newTask = "Read"
    /\ notes newTask = "ch. 3"
    /\ scheduledFor newTask = "2024-03-01T08:00:00.000Z".
Proof.
  intros H.
  apply (proj2 (handleAddTask_validates (H := H) filledForm eq_refl) 1709280000000).
  - reflexivity.
  - vm_compute. reflexivity.
Defined.

Lemma readTasks_roundtrip_witness :
  let H := RefHost.host in
  readTasks (storage (exec (persistTasks [dueTask; doneTask]) sampleState))
  = map encodeTask [dueTask; doneTask].
Proof.
  intros H.
  apply (proj2 (readTasks_roundtrip (H := H) (map encodeTask [dueTask; doneTask])
                  ltac:(repeat constructor;
                        apply wellFormedRecord_encodeTask; discriminate)
                  eq_refl
                  ltac:(vm_compute; reflexivity))).
  reflexivity.
Defined.

(** A slot with a record that lacks [scheduledFor], a record without the
    optional fields, a number and [null]: one record is kept, and filled. *)
Example readTasks_sample :
  let H := RefHost.host in
  let q := String RefHost.dquote EmptyString in
  readTasks (Some ("[{" ++ q ++ "id" ++ q ++ ":" ++ q ++ "a" ++ q ++ ","
                        ++ q ++ "title" ++ q ++ ":" ++ q ++ "t" ++ q ++ "},"
                   ++ "{" ++ q ++ "id" ++ q ++ ":" ++ q ++ "b" ++ q ++ ","
                        ++ q ++ "title" ++ q ++ ":" ++ q ++ "u" ++ q ++ ","
                        ++ q ++ "scheduledFor" ++ q ++ ":" ++ q ++ "s" ++ q ++ "},"
                   ++ "5,null]"))
  = [ JObj [("id", JStr "b"); ("title", JStr "u"); ("scheduledFor", JStr "s");
            ("notes", JStr ""); ("notifiedAt", JNull)] ].
Proof. vm_compute. reflexivity. Qed.

Example readTasks_garbage :
  let H := RefHost.host in readTasks (Some "{not json") = [].
Proof. vm_compute. reflexivity. Qed.

(** For an id that no task has, on a store in canonical order with valid
    dates, [handleSnoozeTask] returns the very same list. *)
Lemma handleSnoozeTask_absent_fixed (H : Host) (s : AppState) (taskId : string)
      (minutes : Z) :
  ~ In taskId (map id (tasks s)) ->
  Forall validDate (tasks s) -> canonical (tasks s) ->
  tasks (exec (handleSnoozeTask taskId minutes) s) = tasks s.
Proof.
  intros Hn Hv Hc.
  rewrite handleSnoozeTask_run, snoozeResults_absent by exact Hn.
  now apply sortTasks_fixed.
Qed.

(** The scenario of the specification, on the reference host: an empty
    store, a task added for 2024-03-01T00:00:00Z just before that instant, a
    tick just after it, and the expiry of the alert. *)
Example scenario_add_tick_expire :
  let H := RefHost.host in
  let s1 := exec handleAddTask emptyStore in
  let s2 := exec reminderTick s1 in
  let alert := {| alert_id := "id-1"; taskId := "id-0"; message := "Stretch";
                  triggeredAt := 1709251202123 |} in
  tasks s1 = [ {| id := "id-0"; title := "Stretch"; notes := "";
                  scheduledFor := "2024-03-01T00:00:00.000Z"; completed := false;
                  notifiedAt := None; createdAt := "2024-02-29T23:59:59.123Z" |} ]
  /\ tasks s2 = [ {| id := "id-0"; title := "Stretch"; notes := "";
                     scheduledFor := "2024-03-01T00:00:00.000Z"; completed := false;
                     notifiedAt := Some "2024-03-01T00:00:03.123Z";
                     createdAt := "2024-02-29T23:59:59.123Z" |} ]
  /\ activeAlerts s2 = [alert]
  /\ activeAlerts (exec (expireAlert alert) s2) = []
  /\ readTasks (storage s2) = map encodeTask (tasks s2).
Proof. vm_compute. repeat split. Qed.

(** * More of the component *)

(** ** The handlers, composed *)

Section HandlerAlgebra.
Context {H : Host}.

Lemma handleAddTask_clears_form (s : AppState) (scheduled : Z) :
  nonEmpty (trim (formTitle s)) = true ->
  nonEmpty (formTime s) = true ->
  Date_parse (formTime s) = Some scheduled ->
  formTitle (exec handleAddTask s) = EmptyString
  /\ formNotes (exec handleAddTask s) = EmptyString
  /\ formTime (exec handleAddTask s)
     = defaultFormTime (clockAt (S (clockReads s))).
Proof.
  intros Ht Hf Hp. unfold exec, handleAddTask. rewrite Ht, Hf, Hp.
  repeat split.
Qed.

(** X1. Submitting the form twice in a row adds at most one task: the first
    submission, when it adds a task, empties the title of the form, so the
    second returns the state it was given. *)
Theorem handleAddTask_idempotent (s : AppState) :
  exec handleAddTask (exec handleAddTask s) = exec handleAddTask s.
Proof.
  destruct (nonEmpty (trim (formTitle s))) eqn:Ht;
    [destruct (nonEmpty (formTime s)) eqn:Hf;
     [destruct (Date_parse (formTime s)) as [scheduled|] eqn:Hp|]|].
  - destruct (handleAddTask_clears_form s scheduled Ht Hf Hp) as (Hc & _).
    set (s' := exec handleAddTask s) in *.
    unfold exec at 1. unfold handleAddTask. rewrite Hc. reflexivity.
  - assert (Hs : exec handleAddTask s = s).
    { unfold exec, handleAddTask. rewrite Ht, Hf, Hp. reflexivity. }
    now rewrite !Hs.
  - assert (Hs : exec handleAddTask s = s).
    { unfold exec, handleAddTask. rewrite Ht, Hf. reflexivity. }
    now rewrite !Hs.
  - assert (Hs : exec handleAddTask s = s).
    { unfold exec, handleAddTask. rewrite Ht. reflexivity. }
    now rewrite !Hs.
Qed.

Lemma toggleTask_twice (taskId : string) (task : Task) :
  toggleTask taskId (toggleTask taskId task) = task.
Proof.
  unfold toggleTask. destruct (String.eqb (id task) taskId) eqn:He.
  - cbn [id]. rewrite He. destruct task; simpl. now rewrite negb_involutive.
  - now rewrite He.
Qed.

(** X2. Toggling the same id twice gives back the list of tasks: same
    tasks, same order, every field as before. *)
Theorem handleToggleComplete_involutive (s : AppState) (taskId : string) :
  tasks (exec (handleToggleComplete taskId) (exec (handleToggleComplete taskId) s))
  = tasks s.
Proof.
  cbn. rewrite map_map. induction (tasks s) as [|task r IH]; simpl; [reflexivity|].
  now rewrite toggleTask_twice, IH.
Qed.

(** X3. [handleToggleComplete] keeps the tasks in their places and writes
    one field only: [completed] is flipped on the tasks with the given id and
    kept on the others; [notifiedAt] and [scheduledFor] stay, so a task whose
    alarm was sent still counts as notified. *)
Theorem handleToggleComplete_flips (s : AppState) (taskId : string) :
  Forall2 (fun p q =>
             id q = id p /\ title q = title p /\ notes q = notes p
             /\ scheduledFor q = scheduledFor p /\ notifiedAt q = notifiedAt p
             /\ createdAt q = createdAt p
             /\ completed q
                = (if String.eqb (id p) taskId then negb (completed p)
                   else completed p)
             /\ wasNotified q = wasNotified p)
          (tasks s) (tasks (exec (handleToggleComplete taskId) s)).
Proof.
  cbn. induction (tasks s) as [|task r IH]; simpl; constructor; [|exact IH].
  unfold toggleTask, wasNotified, notified.
  destruct (String.eqb (id task) taskId); simpl; repeat split.
Qed.

(** X4. [handleDeleteTask] leaves no task with the given id, and leaves
    every task with another id, as many times as it was there; the length
    drops by the number of tasks that had the id. *)
Theorem handleDeleteTask_removes (s : AppState) (taskId : string) :
  let l' := tasks (exec (handleDeleteTask taskId) s) in
  ~ In taskId (map id l')
  /\ (forall task, In task l' <-> In task (tasks s) /\ id task <> taskId)
  /\ (List.length l' + matchCount taskId (tasks s) = List.length (tasks s))%nat
  /\ (forall eq_dec task, id task <> taskId ->
        count_occ eq_dec l' task = count_occ eq_dec (tasks s) task).
Proof.
  cbn. unfold matchCount. split; [|split; [|split]].
  - intros Hin. apply in_map_iff in Hin as (task & Hid & Hin).
    apply filter_In in Hin as [_ Hne].
    rewrite Hid, String.eqb_refl in Hne. discriminate.
  - intros task. rewrite filter_In. split; intros [Hin Hne]; split; auto.
    + intros He. rewrite He, String.eqb_refl in Hne. discriminate.
    + apply negb_true_iff. now apply String.eqb_neq.
  - induction (tasks s) as [|task r IH]; simpl; [reflexivity|].
    destruct (String.eqb (id task) taskId); simpl; lia.
  - intros eq_dec task Hne.
    induction (tasks s) as [|u r IH]; simpl; [reflexivity|].
    destruct (String.eqb_spec (id u) taskId) as [He|He]; simpl.
    + destruct (eq_dec u task) as [->|_]; [congruence | exact IH].
    + destruct (eq_dec u task); now rewrite IH.
Qed.

Lemma snoozeResults_other (taskId : string) (minutes : Z) (task : Task) (l : list Task) :
  id task <> taskId ->
  forall c, In task (snoozeResults taskId minutes c l) <-> In task l.
Proof.
  intros Hne. induction l as [|u r IH]; intros c; simpl; [tauto|].
  destruct (String.eqb_spec (id u) taskId) as [He|He]; simpl.
  - rewrite IH. split.
    + intros [Heq|Hin]; [|tauto]. exfalso. apply Hne. rewrite <- Heq. exact He.
    + intros [Heq|Hin]; [|tauto]. exfalso. apply Hne. rewrite <- Heq. exact He.
  - rewrite IH. tauto.
Qed.

(** X5. [handleSnoozeTask] touches the tasks with the given id only: a task
    with another id is in the store after it exactly when it was before, the
    ids of the store are the same, as many times each, and no task is added
    or removed. *)
Theorem handleSnoozeTask_frame (s : AppState) (taskId : string) (minutes : Z) :
  let l' := tasks (exec (handleSnoozeTask taskId minutes) s) in
  (forall task, id task <> taskId -> (In task l' <-> In task (tasks s)))
  /\ Permutation (map id l') (map id (tasks s))
  /\ List.length l' = List.length (tasks s).
Proof.
  cbn zeta. rewrite handleSnoozeTask_run.
  pose proof (sortTasks_perm (snoozeResults taskId minutes (clockReads s) (tasks s))) as HP.
  split; [|split].
  - intros task Hne. rewrite <- (snoozeResults_other taskId minutes task (tasks s) Hne
                                   (clockReads s)).
    split; apply Permutation_in; [exact HP | symmetry; exact HP].
  - rewrite <- (snoozeResults_id taskId minutes (tasks s) (clockReads s)).
    now apply Permutation_map.
  - rewrite (Permutation_length HP).
    rewrite <- (length_map id), snoozeResults_id. apply length_map.
Qed.
End HandlerAlgebra.

(** ** Templates *)

Section TemplateFacts.
Context {H : Host}.

Lemma templateTarget_reading (offset now : Z) (item : TemplateTask) :
  fixedOffset offset ->
  clockTime item ->
  now < templateTarget now item <= now + msPerDay
  /\ getHours (templateTarget now item) = hour item
  /\ getMinutes (templateTarget now item) = minute item
  /\ getSeconds (templateTarget now item) = 0
  /\ getMilliseconds (templateTarget now item) = 0.
Proof.
  intros Hf [Hh Hm].
  rewrite templateTarget_nextOccurrence by (now apply (onTheClock_fixed offset)).
  split; [now apply (nextOccurrence_future offset)|].
  unfold nextOccurrence.
  destruct (now <? atLocal (localDay now) (hour item) (minute item)).
  - pose proof (atLocal_reading offset (localDay now) (hour item) (minute item)
                  Hf Hh Hm) as X.
    cbn zeta in X. tauto.
  - pose proof (atLocal_reading offset (localDay now + 1) (hour item) (minute item)
                  Hf Hh Hm) as X.
    cbn zeta in X. tauto.
Qed.

(** X6. In a time zone with one offset from UTC all year, for a blueprint
    whose hour and minute are a time of day, the instant
    [handleApplyTemplate] schedules lies strictly after the instant it
    reads, at most a day after it, and reads the blueprint's hour and
    minute, zero seconds, on the local clock. *)
Theorem templateTarget_ahead (offset now : Z) (item : TemplateTask) :
  fixedOffset offset ->
  clockTime item ->
  let t := templateTarget now item in
  now < t <= now + msPerDay
  /\ getHours t = hour item /\ getMinutes t = minute item
  /\ getSeconds t = 0 /\ getMilliseconds t = 0.
Proof.
  intros Hf Hc t. exact (templateTarget_reading offset now item Hf Hc).
Qed.

(** The blueprints of the catalog: three per template, each with a time
    of day and a title. *)
Lemma templates_blueprints (index : nat) (template : Template) :
  nth_error templates index = Some template ->
  List.length (template_tasks template) = 3%nat
  /\ Forall (fun item => clockTime item /\ item_title item <> EmptyString)
            (template_tasks template).
Proof.
  destruct index as [|[|[|[|n]]]]; simpl; intros Hn; inversion Hn; subst; simpl;
    (split; [reflexivity|]);
    repeat constructor; unfold clockTime; simpl; try lia; discriminate.
Qed.

Lemma materialized_ahead (offset now : Z) (items : list TemplateTask) :
  fixedOffset offset ->
  Forall (fun item => clockTime item /\ item_title item <> EmptyString) items ->
  forall c i,
    List.length (materialized now c i items) = List.length items
    /\ Forall (fun task =>
                 exists item t,
                   In item items
                   /\ title task = item_title item /\ title task <> EmptyString
                   /\ notes task = item_notes item
                   /\ scheduledFor task = toISOString t
                   /\ now < t <= now + msPerDay
                   /\ getHours t = hour item /\ getMinutes t = minute item
                   /\ completed task = false /\ notifiedAt task = None)
              (materialized now c i items).
Proof.
  intros Hf.
  induction 1 as [|item r [Hc Ht] Hr IH]; intros c i; simpl.
  - split; [reflexivity | constructor].
  - destruct (IH (S c) (S i)) as [Hlen HF]. split; [now rewrite Hlen|].
    constructor.
    + exists item, (templateTarget now item). simpl.
      pose proof (templateTarget_reading offset now item Hf Hc) as X.
      intuition auto.
    + eapply Forall_impl; [|exact HF].
      intros task (item' & t & Hin & Hrest). exists item', t. split; [now right | exact Hrest].
Qed.

(** X7. In a time zone with one offset from UTC all year, the button of a
    template of the catalog adds three tasks to the store, whatever the
    instant: each carries the title of one of the template's blueprints, is
    incomplete with [notifiedAt = null], and is scheduled strictly after
    the instant the handler reads and at most a day after it, at the
    blueprint's hour and minute of the local clock. The tasks the store had
    are all kept. *)
Theorem ClickTemplate_schedules_ahead (offset : Z) (s : AppState) (index : nat)
        (template : Template) :
  fixedOffset offset ->
  nth_error templates index = Some template ->
  let now := clockAt (clockReads s) in
  let s' := exec (dispatch (ClickTemplate index)) s in
  exists additions,
    Permutation (tasks s') (tasks s ++ additions)%list
    /\ List.length additions = 3%nat
    /\ Forall (fun task =>
                 exists item t,
                   In item (template_tasks template)
                   /\ title task = item_title item /\ title task <> EmptyString
                   /\ notes task = item_notes item
                   /\ scheduledFor task = toISOString t
                   /\ now < t <= now + msPerDay
                   /\ getHours t = hour item /\ getMinutes t = minute item
                   /\ completed task = false /\ notifiedAt task = None)
              additions.
Proof.
  intros Hf Hn now s'. unfold s', dispatch. rewrite Hn.
  rewrite handleApplyTemplate_run. fold now.
  destruct (templates_blueprints index template Hn) as [Hlen Hok].
  destruct (materialized_ahead offset now (template_tasks template) Hf Hok
              (S (clockReads s)) (idsCreated s)) as [Hl HF].
  eexists. split; [apply sortTasks_perm|]. split; [|exact HF].
  now rewrite Hl.
Qed.
End TemplateFacts.

(** ** The default time of the form *)

Section FormTime.
Context {H : Host}.

(** X8. In a time zone with one offset from UTC all year, the time
    [getDefaultFormTime] puts in the form is the local reading of an instant
    on a five-minute mark of the local clock, with zero seconds: the start
    of the current minute when that minute is a multiple of five (an instant
    that has already come), and the next five-minute mark otherwise, less
    than five minutes ahead. *)
Theorem defaultFormTime_mark (offset now0 : Z) :
  fixedOffset offset ->
  exists t,
    defaultFormTime now0 = toLocalInputValue t
    /\ getMinutes t mod 5 = 0 /\ getSeconds t = 0 /\ getMilliseconds t = 0
    /\ (getMinutes now0 mod 5 = 0 -> now0 - msPerMinute < t <= now0)
    /\ (getMinutes now0 mod 5 <> 0 -> now0 < t < now0 + 5 * msPerMinute).
Proof.
  intros Hf. unfold defaultFormTime.
  set (m := getMinutes now0).
  set (r := if m mod 5 =? 0 then 5 else m mod 5).
  exists (setSeconds (setMinutes now0 (m + (5 - r))) 0 0).
  split; [reflexivity|].
  assert (Ht : setMinutes now0 (m + (5 - r)) = now0 + (5 - r) * msPerMinute)
    by (unfold m; apply (setMinutes_getMinutes_fixed offset); exact Hf).
  rewrite Ht. clear Ht.
  assert (Hr : r = if m mod 5 =? 0 then 5 else m mod 5) by reflexivity.
  clearbody r.
  rewrite (setSeconds_fixed offset _ 0 0 Hf).
  unfold m in *. clear m.
  unfold getMinutes, getSeconds, getMilliseconds in *.
  rewrite !(localTime_fixed offset _ Hf) in *.
  unfold msPerMinute, msPerHour in *.
  destruct (Z.eqb_spec ((now0 - offset * 60000) mod 3600000 / 60000 mod 5) 0)
    as [Hz|Hz]; subst r; Z.to_euclidean_division_equations; lia.
Qed.
End FormTime.

(** ** The relative-time label *)

Section Labels.
Context {H : Host}.

(** X9. [describeRelativeTime] says [now] exactly when the scheduled
    instant is within half a minute of the baseline: from 30 seconds before
    it, included, to 30 seconds after it, excluded. *)
Theorem relativeLabel_now (scheduledFor : string) (target baseline : Z) :
  Date_parse scheduledFor = Some target ->
  (relativeLabel scheduledFor baseline = Some LabelNow
   <-> -30000 <= target - baseline < 30000).
Proof.
  intros Hp. unfold relativeLabel, Math_round_div. rewrite Hp. cbn zeta.
  destruct (Z.ltb_spec (Z.abs ((2 * (target - baseline) + 60000) / (2 * 60000))) 1)
    as [Ha|Ha].
  - split; [intros _ | reflexivity].
    Z.to_euclidean_division_equations; lia.
  - split.
    + destruct (Z.abs ((2 * (target - baseline) + 60000) / (2 * 60000)) <? 60);
        discriminate.
    + intros Hd. exfalso. Z.to_euclidean_division_equations; lia.
Qed.

(** X10. When [describeRelativeTime] formats a number, the number is never
    zero: it is the nearest whole number of minutes, between 1 and 59 in
    absolute value, or, from 60 minutes on, a whole number of hours at most
    half an hour and half a minute away from the real distance. *)
Theorem relativeLabel_value (scheduledFor : string) (target baseline value : Z)
        (unit : string) :
  Date_parse scheduledFor = Some target ->
  relativeLabel scheduledFor baseline = Some (LabelFormat value unit) ->
  let diff := target - baseline in
  (unit = "minute" /\ 1 <= Z.abs value <= 59
   /\ Z.abs (diff - value * 60000) <= 30000)
  \/ (unit = "hour" /\ 1 <= Z.abs value
      /\ Z.abs (diff - value * 3600000) <= 1830000).
Proof.
  intros Hp. unfold relativeLabel, Math_round_div. rewrite Hp. cbn zeta.
  set (m := (2 * (target - baseline) + 60000) / (2 * 60000)).
  assert (Hm : 60000 * m - 30000 <= target - baseline < 60000 * m + 30000).
  { unfold m. Z.to_euclidean_division_equations; lia. }
  clearbody m.
  set (h := (2 * m + 60) / (2 * 60)).
  assert (Hh : 60 * h - 30 <= m < 60 * h + 30).
  { unfold h. Z.to_euclidean_division_equations; lia. }
  clearbody h.
  destruct (Z.ltb_spec (Z.abs m) 1) as [Ha|Ha]; [discriminate|].
  destruct (Z.ltb_spec (Z.abs m) 60) as [Hb|Hb]; intros Hl;
    injection Hl as <- <-; [left | right]; (split; [reflexivity | lia]).
Qed.
End Labels.

(** ** The derived lists *)

Lemma filter_split_perm (A : Type) (f : A -> bool) (l : list A) :
  Permutation (filter (fun x => negb (f x)) l ++ filter f l)%list l.
Proof.
  induction l as [|x r IH]; simpl; [constructor|].
  destruct (f x); simpl.
  - symmetry. apply Permutation_cons_app. now symmetry.
  - now constructor.
Qed.

Lemma StronglySorted_weaken (A : Type) (R R' : A -> A -> Prop) (l : list A) :
  (forall a b, In a l -> In b l -> R a b -> R' a b) ->
  StronglySorted R l -> StronglySorted R' l.
Proof.
  intros HR Hs. induction Hs as [|x r Hs IH Hall]; constructor.
  - apply IH. intros a b Ha Hb. apply HR; now right.
  - rewrite Forall_forall in *. intros y Hy.
    apply HR; [now left | now right | auto].
Qed.

Section Views.
Context {H : Host}.

Lemma upcomingTasks_perm (l : list Task) :
  Permutation (upcomingTasks l) (filter (fun task => negb (completed task)) l).
Proof. apply Array_sort_perm. Qed.

Lemma completedTasks_perm (l : list Task) :
  Permutation (completedTasks l) (filter (fun task => completed task) l).
Proof. apply Array_sort_perm. Qed.

(** X11. The lists behind the filters Upcoming and Done split the store:
    together they hold every task once, the first only incomplete tasks and
    the second only completed ones, so the two counts the page shows add up
    to the number of tasks; and there is a task Up next exactly when some
    task is incomplete. *)
Theorem views_partition (l : list Task) :
  Permutation (upcomingTasks l ++ completedTasks l)%list l
  /\ Forall (fun task => completed task = false) (upcomingTasks l)
  /\ Forall (fun task => completed task = true) (completedTasks l)
  /\ (List.length (upcomingTasks l) + List.length (completedTasks l)
      = List.length l)%nat
  /\ (nextTask l = None <-> Forall (fun task => completed task = true) l).
Proof.
  assert (HP : Permutation (upcomingTasks l ++ completedTasks l)%list l).
  { rewrite upcomingTasks_perm, completedTasks_perm.
    apply (filter_split_perm Task (fun task => completed task)). }
  assert (Hu : Forall (fun task => completed task = false) (upcomingTasks l)).
  { eapply Permutation_Forall; [symmetry; apply upcomingTasks_perm|].
    apply Forall_forall. intros task Hin. apply filter_In in Hin as [_ Hc].
    now apply negb_true_iff. }
  assert (Hd : Forall (fun task => completed task = true) (completedTasks l)).
  { eapply Permutation_Forall; [symmetry; apply completedTasks_perm|].
    apply Forall_forall. intros task Hin. now apply filter_In in Hin as [_ Hc]. }
  split; [exact HP|]. split; [exact Hu|]. split; [exact Hd|]. split.
  - rewrite <- length_app. now apply Permutation_length.
  - unfold nextTask. destruct (upcomingTasks l) as [|t r]; simpl.
    + split; [intros _ | reflexivity].
      eapply Permutation_Forall; [exact HP|]. exact Hd.
    + split; [discriminate|]. intros Hall. exfalso.
      inversion Hu as [|? ? Ht _]; subst.
      assert (Hin : In t l).
      { eapply Permutation_in; [exact HP|]. now left. }
      rewrite Forall_forall in Hall. specialize (Hall t Hin). congruence.
Qed.

Lemma earlier_trans (x y z : Task) :
  validDate x -> validDate y -> validDate z ->
  earlier x y -> earlier y z -> earlier x z.
Proof.
  intros _ _ _ (a & b & Ha & Hb & Hab) (b' & c & Hb' & Hc & Hbc).
  exists a, c. rewrite Hb in Hb'. inversion Hb'; subst. repeat split; auto. lia.
Qed.

Lemma compareScheduled_le (x y : Task) :
  validDate x -> validDate y -> SortCompare compareScheduled x y <= 0 -> earlier x y.
Proof.
  unfold validDate, SortCompare, compareScheduled, earlier. intros Hx Hy.
  destruct (getTime x) as [a|]; [|congruence].
  destruct (getTime y) as [b|]; [|congruence].
  intros Hc. exists a, b. repeat split. lia.
Qed.

Lemma compareScheduled_gt (x y : Task) :
  validDate x -> validDate y -> 0 < SortCompare compareScheduled x y -> earlier y x.
Proof.
  unfold validDate, SortCompare, compareScheduled, earlier. intros Hx Hy.
  destruct (getTime x) as [a|]; [|congruence].
  destruct (getTime y) as [b|]; [|congruence].
  intros Hc. exists b, a. repeat split. lia.
Qed.

Lemma earlier_compareScheduled (x y : Task) :
  validDate x -> validDate y -> earlier x y -> SortCompare compareScheduled x y <= 0.
Proof.
  unfold SortCompare, compareScheduled. intros _ _ (a & b & Ha & Hb & Hab).
  rewrite Ha, Hb. lia.
Qed.

Lemma validDate_filter (f : Task -> bool) (l : list Task) :
  Forall validDate l -> Forall validDate (filter f l).
Proof.
  rewrite !Forall_forall. intros Hl task Hin. apply filter_In in Hin as [Hin _]. auto.
Qed.

(** X12. When every [scheduledFor] of the store is a valid date, the list
    Upcoming is in ascending and the list Done in descending order of
    [scheduledFor], and the task Up next is an incomplete task of the store
    that no incomplete task precedes in time. *)
Theorem views_sorted (l : list Task) :
  Forall validDate l ->
  StronglySorted earlier (upcomingTasks l)
  /\ StronglySorted later (completedTasks l)
  /\ (forall t, nextTask l = Some t ->
        In t l /\ completed t = false
        /\ forall u, In u l -> completed u = false -> earlier t u).
Proof.
  intros Hv.
  assert (Hup : StronglySorted earlier (upcomingTasks l)).
  { unfold upcomingTasks.
    apply Array_sort_sorted with (ok := validDate).
    - exact earlier_trans.
    - exact compareScheduled_le.
    - exact compareScheduled_gt.
    - now apply validDate_filter. }
  split; [exact Hup|]. split.
  - unfold completedTasks.
    apply Array_sort_sorted with (ok := validDate).
    + intros x y z Hx Hy Hz Hxy Hyz. unfold later in *.
      now apply (earlier_trans z y x).
    + intros x y Hx Hy Hc. unfold later. apply compareScheduled_le; auto.
    + intros x y Hx Hy Hc. unfold later. apply compareScheduled_gt; auto.
    + now apply validDate_filter.
  - intros t Hn. unfold nextTask in Hn.
    destruct (upcomingTasks l) as [|t0 r] eqn:He; [discriminate|].
    inversion Hn; subst t0.
    assert (Hmem : forall u, In u (t :: r) <-> In u l /\ completed u = false).
    { intros u. rewrite <- He. split.
      - intros Hin. apply (Permutation_in _ (upcomingTasks_perm l)) in Hin.
        apply filter_In in Hin as [Hin Hc]. now apply negb_true_iff in Hc.
      - intros [Hin Hc]. apply (Permutation_in _ (Permutation_sym (upcomingTasks_perm l))).
        apply filter_In. split; [exact Hin | now apply negb_true_iff]. }
    destruct (proj1 (Hmem t) (or_introl eq_refl)) as [Hin Hc].
    split; [exact Hin|]. split; [exact Hc|].
    intros u Hu Hcu. inversion Hup as [|? ? _ Hall]; subst.
    destruct (proj2 (Hmem u) (conj Hu Hcu)) as [<-|Hr].
    + rewrite Forall_forall in Hv. specialize (Hv t Hin). unfold validDate in Hv.
      unfold earlier. destruct (getTime t) as [x|]; [|congruence].
      exists x, x. repeat split. lia.
    + rewrite Forall_forall in Hall. auto.
Qed.

(** X13. On a store in canonical order with valid dates, the list Upcoming
    is the incomplete tasks in the order of the store, and the task Up next
    is the first task of the store, unless that one is completed: then every
    task is, and there is none. *)
Theorem views_of_canonical (l : list Task) :
  Forall validDate l -> canonical l ->
  upcomingTasks l = filter (fun task => negb (completed task)) l
  /\ nextTask l = match l with
                  | [] => None
                  | t :: _ => if completed t then None else Some t
                  end.
Proof.
  intros Hv Hc.
  assert (Hup : upcomingTasks l = filter (fun task => negb (completed task)) l).
  { unfold upcomingTasks.
    apply Array_sort_fixed with (ok := validDate) (le := earlier).
    - now apply validDate_filter.
    - apply StronglySorted_weaken with (R := inOrder).
      + intros a b Ha Hb Hab.
        apply filter_In in Ha as [_ Ha]. apply filter_In in Hb as [_ Hb].
        apply negb_true_iff in Ha, Hb.
        destruct Hab as [[_ Hb']|[_ He]]; [congruence | exact He].
      + now apply canonical_filter.
    - exact earlier_compareScheduled. }
  split; [exact Hup|]. unfold nextTask. rewrite Hup.
  destruct l as [|t r]; simpl; [reflexivity|].
  destruct (completed t) eqn:Ht; simpl; [|reflexivity].
  inversion Hc as [|? ? _ Hall]; subst.
  assert (He : filter (fun task => negb (completed task)) r = []).
  { clear -Hall Ht. induction Hall as [|u r' Hu Hr IH]; simpl; [reflexivity|].
    destruct Hu as [[Hf _]|[Hsame _]]; [congruence|].
    rewrite <- Hsame, Ht. simpl. exact IH. }
  now rewrite He.
Qed.

(** X14. After a reminder tick, every task of the store that the page
    shows as overdue, for a display time not after the instant the tick
    read, is shown with its alarm sent. *)
Theorem reminderTick_covers_overdue (s : AppState) (now : Z) (task : Task) :
  now <= clockAt (clockReads s) ->
  In task (tasks (exec reminderTick s)) ->
  isOverdue task now = true ->
  wasNotified task = true.
Proof.
  intros Hnow Hin Ho.
  pose proof (reminderTick_tasks s) as X. cbn zeta in X.
  destruct X as (next & HF & HP & _).
  apply (Permutation_in _ HP) in Hin.
  destruct (Forall2_In_r _ _ _ _ _ _ HF Hin) as (p & _ & [[He ->]|[_ (k & _ & ->)]]).
  - unfold isOverdue in Ho. apply andb_true_iff in Ho as [Hc Hd].
    apply negb_true_iff in Hc.
    unfold eligible, isDue in He. rewrite Hc in He. simpl in He.
    unfold wasNotified.
    destruct (getTime p) as [x|]; [|discriminate].
    apply Z.ltb_lt in Hd.
    assert (Hx : (x <=? clockAt (clockReads s)) = true) by (apply Z.leb_le; lia).
    rewrite Hx, andb_true_r in He. now apply negb_false_iff in He.
  - apply notified_markNotified.
Qed.
End Views.

(** ** Alerts and their expiry *)

Lemma filter_twice (A : Type) (f g : A -> bool) (l : list A) :
  filter g (filter f l) = filter (fun x => f x && g x) l.
Proof.
  induction l as [|x r IH]; simpl; [reflexivity|].
  destruct (f x); simpl; [|exact IH].
  destruct (g x); now rewrite IH.
Qed.

Lemma filter_all_true (A : Type) (f : A -> bool) (l : list A) :
  (forall x, In x l -> f x = true) -> filter f l = l.
Proof.
  induction l as [|x r IH]; simpl; intros Hall; [reflexivity|].
  rewrite (Hall x (or_introl eq_refl)). f_equal. apply IH. auto.
Qed.

Lemma filter_all_false (A : Type) (f : A -> bool) (l : list A) :
  (forall x, In x l -> f x = false) -> filter f l = [].
Proof.
  induction l as [|x r IH]; simpl; intros Hall; [reflexivity|].
  rewrite (Hall x (or_introl eq_refl)). apply IH. auto.
Qed.

Section Alerts.
Context {H : Host}.

(** The alert list after the timeouts of the alerts [xs]: the alerts whose
    id is the id of none of them. *)
Lemma run_AlertTimeout (xs : list Alert) : forall st,
  activeAlerts (run (map AlertTimeout xs) st)
  = filter (fun a => negb (existsb (fun x => String.eqb (alert_id a) (alert_id x)) xs))
           (activeAlerts st)
  /\ tasks (run (map AlertTimeout xs) st) = tasks st
  /\ storage (run (map AlertTimeout xs) st) = storage st.
Proof.
  induction xs as [|x r IH]; intros st.
  - simpl. split; [|split; reflexivity].
    induction (activeAlerts st) as [|a l IHl]; simpl; [reflexivity | now f_equal].
  - change (run (map AlertTimeout (x :: r)) st)
      with (run (map AlertTimeout r) (exec (dispatch (AlertTimeout x)) st)).
    destruct (IH (exec (dispatch (AlertTimeout x)) st)) as (Ha & Ht & Hs).
    rewrite Ha, Ht, Hs.
    cbn [exec dispatch expireAlert snd activeAlerts tasks storage].
    split; [|split; reflexivity].
    rewrite filter_twice. apply filter_ext. intros a. simpl.
    now rewrite negb_orb.
Qed.

Lemma tickAlerts_ids (now : Z) (l : list Task) : forall c i,
  Forall (fun a => exists j, (i <= j)%nat /\ alert_id a = idAt j)
         (tickAlerts now c i l).
Proof.
  induction l as [|task r IH]; intros c i; simpl; [constructor|].
  destruct (eligible now task).
  - constructor.
    + exists i. split; [lia | reflexivity].
    + eapply Forall_impl; [|apply IH].
      intros a (j & Hj & Ha). exists j. split; [lia | exact Ha].
  - apply IH.
Qed.

Lemma reminderTick_alerts_exact (s : AppState) :
  activeAlerts (exec reminderTick s)
  = (activeAlerts s
     ++ tickAlerts (clockAt (clockReads s)) (S (clockReads s)) (idsCreated s)
          (tasks s))%list.
Proof.
  rewrite reminderTick_run. cbn zeta.
  destruct (existsb (eligible (clockAt (clockReads s))) (tasks s)) eqn:He.
  - reflexivity.
  - rewrite (tickAlerts_none _ _ _ _ He). reflexivity.
Qed.

(** X15. The alerts that a reminder tick pushes are all gone once their
    timeouts have run, and the alerts that were shown before the tick are
    still shown; the timeouts change neither the tasks nor the slot. The ids
    that [createId] returns from the tick on differ from the ids of the
    alerts already shown. *)
Theorem reminderTick_alerts_expire (s : AppState) :
  (forall a n, In a (activeAlerts s) -> (idsCreated s <= n)%nat ->
               alert_id a <> idAt n) ->
  let s1 := exec reminderTick s in
  exists fired,
    activeAlerts s1 = (activeAlerts s ++ fired)%list
    /\ activeAlerts (run (map AlertTimeout fired) s1) = activeAlerts s
    /\ tasks (run (map AlertTimeout fired) s1) = tasks s1
    /\ storage (run (map AlertTimeout fired) s1) = storage s1.
Proof.
  intros Hfresh s1.
  set (fired := tickAlerts (clockAt (clockReads s)) (S (clockReads s))
                  (idsCreated s) (tasks s)).
  exists fired.
  assert (Ha : activeAlerts s1 = (activeAlerts s ++ fired)%list)
    by apply reminderTick_alerts_exact.
  destruct (run_AlertTimeout fired s1) as (Hr & Ht & Hs).
  split; [exact Ha|]. split; [|split; assumption].
  rewrite Hr, Ha, filter_app.
  pose proof (tickAlerts_ids (clockAt (clockReads s)) (tasks s)
                (S (clockReads s)) (idsCreated s)) as Hids.
  fold fired in Hids.
  rewrite (filter_all_true Alert); [rewrite (filter_all_false Alert)|].
  - apply app_nil_r.
  - intros a Hin. apply negb_false_iff. apply existsb_exists.
    exists a. split; [exact Hin | apply String.eqb_refl].
  - intros a Hin. apply negb_true_iff. apply not_true_is_false. intros Hex.
    apply existsb_exists in Hex as (x & Hx & He).
    apply String.eqb_eq in He.
    rewrite Forall_forall in Hids. destruct (Hids x Hx) as (j & Hj & Hid).
    apply (Hfresh a j); [exact Hin | exact Hj | congruence].
Qed.
End Alerts.

(** ** The message of an alert *)

Lemma stripWhiteSpace_app (s r t : string) :
  stripWhiteSpace s = Some r -> stripWhiteSpace (s ++ t) = Some (r ++ t).
Proof.
  destruct s as [|a [|b [|c u]]]; simpl; try discriminate.
  - destruct (whiteSpace1 a); [|discriminate]. intros E; inversion E; reflexivity.
  - destruct (whiteSpace1 a); [intros E; inversion E; reflexivity|].
    destruct (whiteSpace2 a b); [|discriminate]. intros E; inversion E; reflexivity.
  - destruct (whiteSpace1 a); [intros E; inversion E; reflexivity|].
    destruct (whiteSpace2 a b); [intros E; inversion E; reflexivity|].
    destruct (whiteSpace3 a b c); [|discriminate]. intros E; inversion E; reflexivity.
Qed.

(** A space completes no white space code point begun before it. *)
Lemma stripWhiteSpace_space (s : string) :
  s <> EmptyString -> stripWhiteSpace s = None -> stripWhiteSpace (s ++ " ") = None.
Proof.
  destruct s as [|a [|b [|c u]]]; simpl; try congruence; intros _.
  - destruct (whiteSpace1 a); [discriminate|]. intros _.
    unfold whiteSpace2. simpl. now rewrite andb_false_r.
  - destruct (whiteSpace1 a); [discriminate|].
    destruct (whiteSpace2 a b); [discriminate|]. intros _.
    unfold whiteSpace3. simpl. now rewrite !andb_false_r.
  - destruct (whiteSpace1 a); [discriminate|].
    destruct (whiteSpace2 a b); [discriminate|].
    destruct (whiteSpace3 a b c); [discriminate | reflexivity].
Qed.

Lemma allWhiteSpace_space (s : string) :
  allWhiteSpace (s ++ " ") = allWhiteSpace s.
Proof.
  induction s as [s IH] using stripWhiteSpace_ind.
  destruct s as [|a u]; [reflexivity|].
  rewrite (allWhiteSpace_step (String a u)) by discriminate.
  rewrite (allWhiteSpace_step (String a u ++ " ")) by discriminate.
  destruct (stripWhiteSpace (String a u)) as [r|] eqn:Hr.
  - rewrite (stripWhiteSpace_app _ _ " " Hr). now apply IH.
  - rewrite stripWhiteSpace_space by (assumption || discriminate). reflexivity.
Qed.

Lemma trimEnd_space (s : string) : trimEnd (s ++ " ") = trimEnd s.
Proof.
  induction s as [|c r IH]; [reflexivity|].
  change (String c r ++ " ") with (String c (r ++ " ")).
  rewrite !trimEnd_step.
  change (String c (r ++ " ")) with (String c r ++ " ").
  now rewrite allWhiteSpace_space, IH.
Qed.

Lemma trimStart_space (s : string) :
  allWhiteSpace s = false -> trimStart (s ++ " ") = trimStart s ++ " ".
Proof.
  induction s as [s IH] using stripWhiteSpace_ind.
  intros Hw. rewrite (trimStart_step s), (trimStart_step (s ++ " ")).
  destruct s as [|a u]; [discriminate|].
  rewrite (allWhiteSpace_step (String a u)) in Hw by discriminate.
  destruct (stripWhiteSpace (String a u)) as [r|] eqn:Hr.
  - rewrite (stripWhiteSpace_app _ _ " " Hr). now apply IH.
  - rewrite stripWhiteSpace_space by (assumption || discriminate). reflexivity.
Qed.

Lemma trim_space (s : string) : trim (s ++ " ") = trim s.
Proof.
  unfold trim. destruct (allWhiteSpace s) eqn:Hw.
  - rewrite !trimStart_allWhiteSpace; [reflexivity | exact Hw |].
    now rewrite allWhiteSpace_space.
  - rewrite trimStart_space by exact Hw. apply trimEnd_space.
Qed.

Lemma trimStart_clean (s : string) : stripWhiteSpace (trimStart s) = None.
Proof.
  induction s as [s IH] using stripWhiteSpace_ind.
  rewrite trimStart_step.
  destruct (stripWhiteSpace s) as [r|] eqn:Hr; [now apply IH | exact Hr].
Qed.

Lemma trimStart_of_clean (s : string) : stripWhiteSpace s = None -> trimStart s = s.
Proof. intros Hc. now rewrite trimStart_step, Hc. Qed.

(** What [trimEnd] cuts off is white space. *)
Lemma trimEnd_cut (s : string) :
  exists q, s = trimEnd s ++ q /\ allWhiteSpace q = true.
Proof.
  induction s as [|c r IH].
  - exists EmptyString. split; reflexivity.
  - rewrite trimEnd_step. destruct (allWhiteSpace (String c r)) eqn:Hw.
    + exists (String c r). split; [reflexivity | exact Hw].
    + destruct IH as (q & Hq & Hw'). exists q. split; [|exact Hw'].
      simpl. now rewrite <- Hq.
Qed.

Lemma trimEnd_clean (s : string) :
  stripWhiteSpace s = None -> stripWhiteSpace (trimEnd s) = None.
Proof.
  intros Hc. destruct (trimEnd_cut s) as (q & Hq & _).
  destruct (stripWhiteSpace (trimEnd s)) as [r|] eqn:Hr; [|reflexivity].
  rewrite Hq, (stripWhiteSpace_app _ _ q Hr) in Hc. discriminate.
Qed.

Lemma allWhiteSpace_app (p q : string) :
  allWhiteSpace p = true -> allWhiteSpace (p ++ q) = allWhiteSpace q.
Proof.
  induction p as [p IH] using stripWhiteSpace_ind.
  intros Hw. destruct p as [|a u]; [reflexivity|].
  rewrite (allWhiteSpace_step (String a u)) in Hw by discriminate.
  rewrite (allWhiteSpace_step (String a u ++ q)) by discriminate.
  destruct (stripWhiteSpace (String a u)) as [r|] eqn:Hr; [|discriminate].
  rewrite (stripWhiteSpace_app _ _ q Hr). now apply IH.
Qed.

Lemma allWhiteSpace_trimEnd (s : string) :
  allWhiteSpace (trimEnd s) = allWhiteSpace s.
Proof.
  destruct (allWhiteSpace s) eqn:Hw.
  - apply trimEnd_empty_iff in Hw. now rewrite Hw.
  - destruct (allWhiteSpace (trimEnd s)) eqn:Hw'; [|reflexivity].
    destruct (trimEnd_cut s) as (q & Hq & Hwq).
    rewrite Hq, (allWhiteSpace_app _ q Hw'), Hwq in Hw. discriminate.
Qed.

Lemma trimEnd_twice (s : string) : trimEnd (trimEnd s) = trimEnd s.
Proof.
  induction s as [|c r IH]; [reflexivity|].
  pose proof (allWhiteSpace_trimEnd (String c r)) as Hw.
  rewrite trimEnd_step in *.
  destruct (allWhiteSpace (String c r)); [reflexivity|].
  now rewrite trimEnd_step, Hw, IH.
Qed.

Lemma trim_twice (s : string) : trim (trim s) = trim s.
Proof.
  unfold trim.
  rewrite (trimStart_of_clean (trimEnd (trimStart s)))
    by (apply trimEnd_clean, trimStart_clean).
  apply trimEnd_twice.
Qed.

(** X16. The message of an alert is trimmed: trimming it again changes
    nothing. For a task without notes it is the trimmed title alone, with no
    space or bullet after it. *)
Theorem alertMessage_trimmed (task : Task) :
  trim (alertMessage task) = alertMessage task
  /\ (notes task = EmptyString -> alertMessage task = trim (title task)).
Proof.
  unfold alertMessage. split; [apply trim_twice|].
  intros Hn. rewrite Hn. simpl.
  replace (title task ++ " " ++ "") with (title task ++ " ") by reflexivity.
  apply trim_space.
Qed.

(** ** Loading what was loaded *)

Lemma coalesce_twice (x : option json) (d : json) :
  coalesce (Some (coalesce x d)) d = coalesce x d.
Proof.
  destruct x as [v|]; simpl.
  - destruct v; simpl; try reflexivity. destruct d; reflexivity.
  - destruct d; reflexivity.
Qed.

Lemma setField_present (k : string) (v : json) (fs : list (string * json)) :
  assoc k fs = Some v -> setField k v fs = fs.
Proof.
  induction fs as [|[k0 v0] r IH]; simpl; [discriminate|].
  destruct (String.eqb_spec k k0) as [->|Hne].
  - intros Hv. inversion Hv. reflexivity.
  - intros Hv. now rewrite IH.
Qed.

Section Reload.
Context {H : Host}.

Lemma fillRecord_twice (fs : list (string * json)) :
  fillRecord (fillRecord (JObj fs)) = fillRecord (JObj fs).
Proof.
  unfold fillRecord at 1. cbn [getField ownFields fillRecord].
  rewrite !assoc_setField. cbn [String.eqb Ascii.eqb Bool.eqb andb].
  rewrite !coalesce_twice.
  rewrite (setField_present "notes").
  - rewrite setField_present; [reflexivity|]. now rewrite assoc_setField.
  - now rewrite !assoc_setField.
Qed.

Lemma keepRecord_fillRecord (fs : list (string * json)) :
  keepRecord (fillRecord (JObj fs)) = keepRecord (JObj fs).
Proof.
  destruct (fillRecord_defaultFilled fs) as (_ & _ & Hother).
  unfold keepRecord.
  rewrite (Hother "id"), (Hother "scheduledFor"), (Hother "title")
    by discriminate.
  reflexivity.
Qed.

Lemma readTasks_kept (slot : option string) :
  exists kept, readTasks slot = map fillRecord kept
               /\ Forall (fun r => exists fs, r = JObj fs /\ keepRecord r = true) kept.
Proof.
  unfold readTasks. destruct slot as [raw|]; [|exists []; split; [reflexivity | constructor]].
  destruct (negb (nonEmpty raw)); [exists []; split; [reflexivity | constructor]|].
  destruct (JSON_parse raw) as [[| | | |parsed|]|];
    try (exists []; split; [reflexivity | constructor]).
  exists (filter keepRecord parsed). split; [reflexivity|].
  apply Forall_forall. intros r Hin. apply filter_In in Hin as [_ Hk].
  destruct (keepRecord_object r Hk) as [fs ->]. eauto.
Qed.

Lemma readTasks_fixed (slot : option string) :
  map fillRecord (filter keepRecord (readTasks slot)) = readTasks slot.
Proof.
  destruct (readTasks_kept slot) as (kept & -> & Hk).
  induction Hk as [|r l (fs & -> & Hr) Hl IH]; simpl; [reflexivity|].
  rewrite keepRecord_fillRecord, Hr. simpl.
  now rewrite fillRecord_twice, IH.
Qed.

(** X17. Whatever the slot holds, the records that [readTasks] returns are
    stable: written back to the slot as they are and read again, they come
    back the same, none dropped and none changed. The host refuses the empty
    text and reads back the text it wrote for these records. *)
Theorem readTasks_reload_stable (slot : option string) :
  JSON_parse EmptyString = None ->
  JSON_parse (JSON_stringify (JArr (readTasks slot))) = Some (JArr (readTasks slot)) ->
  readTasks (Some (JSON_stringify (JArr (readTasks slot)))) = readTasks slot.
Proof.
  intros Hempty Hrt.
  assert (Hne : JSON_stringify (JArr (readTasks slot)) <> EmptyString) by congruence.
  rewrite (readTasks_array _ _ Hne Hrt). apply readTasks_fixed.
Qed.
End Reload.

(** ** What every event keeps *)

Section Events.
Context {H : Host}.

Lemma loadable_iff (task : Task) :
  loadable task
  <-> id task <> EmptyString /\ title task <> EmptyString
      /\ scheduledFor task <> EmptyString.
Proof.
  unfold loadable, keepRecord, encodeTask. cbn.
  rewrite !andb_true_iff, !nonEmpty_true_iff. tauto.
Qed.

Lemma loadable_same (p q : Task) :
  id q = id p -> title q = title p -> scheduledFor q = scheduledFor p ->
  loadable p -> loadable q.
Proof.
  rewrite !loadable_iff. intros -> -> ->. tauto.
Qed.

Lemma loadable_sortTasks (l : list Task) :
  Forall loadable l -> Forall loadable (sortTasks l).
Proof.
  intros Hl. eapply Permutation_Forall; [symmetry; apply sortTasks_perm | exact Hl].
Qed.

Lemma toISOString_not_empty (t : Z) : toISOString t <> EmptyString.
Proof. apply nonEmpty_true_iff, toISOString_nonEmpty. Qed.

Lemma handleSnoozeTask_state (taskId : string) (minutes : Z) (s : AppState) :
  exec (handleSnoozeTask taskId minutes) s
  = exec (setTasks (sortTasks (snoozeResults taskId minutes (clockReads s) (tasks s))))
         (advance s (matchCount taskId (tasks s) + clockReads s) (idsCreated s) []).
Proof.
  unfold exec, handleSnoozeTask, bind at 1, getTasks at 1.
  unfold bind at 1. rewrite mapM_snoozeTask. reflexivity.
Qed.

Lemma handleApplyTemplate_state (template : Template) (s : AppState) :
  exec (handleApplyTemplate template) s
  = exec (setTasks (sortTasks
                      (tasks s
                       ++ materialized (clockAt (clockReads s)) (S (clockReads s))
                            (idsCreated s) (template_tasks template))%list))
         (advance s (List.length (template_tasks template) + S (clockReads s))
            (List.length (template_tasks template) + idsCreated s) []).
Proof.
  unfold exec, handleApplyTemplate, bind at 1, Date_now at 1.
  unfold bind at 1, getTasks at 1. unfold bind at 1.
  rewrite mapM_materialize. reflexivity.
Qed.

Lemma dispatch_inSync (e : Event) (s : AppState) :
  inSync s -> inSync (exec (dispatch e) s).
Proof.
  intros Hs. destruct e as [ | v | v | v | tid | tid | tid | index | | | alert ]; cbn [dispatch];
    try exact Hs; try reflexivity.
  - unfold exec, handleAddTask.
    destruct (negb (nonEmpty (trim (formTitle s))) || negb (nonEmpty (formTime s)));
      [exact Hs|].
    destruct (Date_parse (formTime s)); [reflexivity | exact Hs].
  - rewrite handleSnoozeTask_state. reflexivity.
  - destruct (nth_error templates index) as [template|]; [|exact Hs].
    rewrite handleApplyTemplate_state. reflexivity.
  - rewrite reminderTick_run. cbn zeta.
    destruct (existsb (eligible (clockAt (clockReads s))) (tasks s));
      [reflexivity | exact Hs].
Qed.

Lemma dispatch_loadable (e : Event) (s : AppState) :
  (forall n, idAt n <> EmptyString) ->
  Forall loadable (tasks s) -> Forall loadable (tasks (exec (dispatch e) s)).
Proof.
  intros Hid Hl. destruct e as [ | v | v | v | tid | tid | tid | index | | | alert ]; cbn [dispatch];
    try exact Hl.
  - destruct (nonEmpty (trim (formTitle s))) eqn:Ht;
      [destruct (nonEmpty (formTime s)) eqn:Hf;
       [destruct (Date_parse (formTime s)) as [scheduled|] eqn:Hp|]|];
      try (unfold exec, handleAddTask; rewrite ?Ht, ?Hf, ?Hp; exact Hl).
    rewrite (handleAddTask_run s scheduled Ht Hf Hp).
    apply loadable_sortTasks, Forall_app. split; [exact Hl|].
    constructor; [|constructor]. apply loadable_iff. cbn [id title scheduledFor].
    split; [apply Hid|]. split; [now apply nonEmpty_true_iff | apply toISOString_not_empty].
  - cbn. induction Hl as [|task r Ht Hr IH]; simpl; constructor; [|exact IH].
    unfold toggleTask. destruct (String.eqb (id task) tid); [|exact Ht].
    eapply loadable_same; [| | |exact Ht]; reflexivity.
  - rewrite handleSnoozeTask_run. apply loadable_sortTasks.
    generalize (clockReads s). induction Hl as [|task r Ht Hr IH]; intros c; simpl.
    + constructor.
    + destruct (negb (String.eqb (id task) tid)); constructor; auto.
      apply loadable_iff in Ht. apply loadable_iff. cbn [id title scheduledFor].
      split; [tauto|]. split; [tauto | apply toISOString_not_empty].
  - cbn. rewrite Forall_forall in *. intros task Hin.
    apply filter_In in Hin as [Hin _]. auto.
  - destruct (nth_error templates index) as [template|] eqn:Hn; [|exact Hl].
    rewrite handleApplyTemplate_run. apply loadable_sortTasks, Forall_app.
    split; [exact Hl|].
    destruct (templates_blueprints index template Hn) as [_ Hok].
    generalize (S (clockReads s)) (idsCreated s).
    induction Hok as [|item r [_ Ht] Hr IH]; intros c i; simpl; constructor; auto.
    apply loadable_iff. cbn [id title scheduledFor].
    split; [apply Hid|]. split; [exact Ht | apply toISOString_not_empty].
  - cbn. constructor.
  - rewrite reminderTick_run. cbn zeta.
    destruct (existsb (eligible (clockAt (clockReads s))) (tasks s)); [|exact Hl].
    rewrite setTasks_run. cbn [tasks]. apply loadable_sortTasks.
    generalize (S (clockReads s)).
    induction Hl as [|task r Ht Hr IH]; intros c; simpl.
    + constructor.
    + destruct (eligible (clockAt (clockReads s)) task); cbn [map snd];
        constructor; auto.
Qed.

Lemma dispatch_stamped (e : Event) (s : AppState) :
  Forall stamped (tasks s) -> Forall stamped (tasks (exec (dispatch e) s)).
Proof.
  intros Hs. destruct e as [ | v | v | v | tid | tid | tid | index | | | alert ]; cbn [dispatch];
    try exact Hs.
  - now apply handleAddTask_stamped.
  - now apply handleToggleComplete_stamped.
  - now apply handleSnoozeTask_stamped.
  - now apply handleDeleteTask_stamped.
  - destruct (nth_error templates index); [|exact Hs].
    now apply handleApplyTemplate_stamped.
  - cbn. constructor.
  - now apply reminderTick_stamped.
Qed.

Lemma run_storeInvariant (events : list Event) : forall s,
  (forall n, idAt n <> EmptyString) ->
  storeInvariant s -> storeInvariant (run events s).
Proof.
  induction events as [|e r IH]; intros s Hid Hinv; [exact Hinv|].
  change (run (e :: r) s) with (run r (exec (dispatch e) s)).
  apply IH; [exact Hid|]. destruct Hinv as (Hs & Hl & Ht).
  split; [now apply dispatch_inSync|].
  split; [now apply dispatch_loadable | now apply dispatch_stamped].
Qed.

(** X18. Whatever the sequence of events of the page (form edits and
    submissions, toggles, snoozes, deletions, templates of the catalog,
    resets, reminder ticks, alert timeouts), the store keeps three things it
    had at the start: the slot holds the serialization of the tasks in
    memory, every task has a non-empty [id], [title] and [scheduledFor], so
    that [readTasks] would keep it, and every [notifiedAt] is [null] or a
    non-empty string. [createId] never returns the empty string. *)
Theorem run_keeps_store (events : list Event) (s : AppState) :
  (forall n, idAt n <> EmptyString) ->
  storeInvariant s -> storeInvariant (run events s).
Proof. intros Hid Hinv. now apply run_storeInvariant. Qed.

Lemma readTasks_of_loadable (l : list Task) :
  Forall loadable l ->
  map fillRecord (filter keepRecord (map encodeTask l)) = map encodeTask l.
Proof.
  induction 1 as [|task r Ht Hr IH]; [reflexivity|].
  cbn [map filter]. unfold loadable in Ht. rewrite Ht.
  cbn [map]. now rewrite fillRecord_encodeTask, IH.
Qed.

(** X19. After any sequence of events from a state that satisfies the
    invariant of the store, reading the slot gives exactly the tasks in
    memory, in their order: a reload of the page loses nothing. The host
    refuses the empty text and reads back the text written for the final
    list. *)
Theorem run_then_readTasks (events : list Event) (s : AppState) :
  (forall n, idAt n <> EmptyString) ->
  storeInvariant s ->
  let s' := run events s in
  JSON_parse EmptyString = None ->
  JSON_parse (JSON_stringify (encodeTasks (tasks s'))) = Some (encodeTasks (tasks s')) ->
  readTasks (storage s') = map encodeTask (tasks s').
Proof.
  intros Hid Hinv s' Hempty Hrt.
  destruct (run_storeInvariant events s Hid Hinv) as (Hs & Hl & _).
  fold s' in Hs, Hl. unfold inSync in Hs. rewrite Hs.
  assert (Hne : JSON_stringify (encodeTasks (tasks s')) <> EmptyString) by congruence.
  rewrite (readTasks_array _ _ Hne Hrt).
  now apply readTasks_of_loadable.
Qed.

Lemma sortTasks_canonical_valid (l : list Task) :
  Forall validDate (sortTasks l) -> canonical (sortTasks l).
Proof.
  intros Hv. apply sortTasks_canonical.
  eapply Permutation_Forall; [apply sortTasks_perm | exact Hv].
Qed.

(** X20. Every event other than a toggle keeps the canonical order: from a
    store in canonical order, the store after the event is in canonical
    order as soon as its dates are valid. *)
Theorem dispatch_keeps_canonical (e : Event) (s : AppState) :
  (forall taskId, e <> ClickToggle taskId) ->
  canonical (tasks s) ->
  Forall validDate (tasks (exec (dispatch e) s)) ->
  canonical (tasks (exec (dispatch e) s)).
Proof.
  intros Hnot Hc. destruct e as [ | v | v | v | tid | tid | tid | index | | | alert ]; cbn [dispatch];
    try (intros _; exact Hc).
  - destruct (nonEmpty (trim (formTitle s))) eqn:Ht;
      [destruct (nonEmpty (formTime s)) eqn:Hf;
       [destruct (Date_parse (formTime s)) as [scheduled|] eqn:Hp|]|];
      try (unfold exec, handleAddTask; rewrite ?Ht, ?Hf, ?Hp; intros _; exact Hc).
    rewrite (handleAddTask_run s scheduled Ht Hf Hp). apply sortTasks_canonical_valid.
  - exfalso. now apply (Hnot tid).
  - rewrite handleSnoozeTask_run. apply sortTasks_canonical_valid.
  - intros _. now apply handleDeleteTask_canonical.
  - destruct (nth_error templates index); [|intros _; exact Hc].
    rewrite handleApplyTemplate_run. apply sortTasks_canonical_valid.
  - intros _. cbn. constructor.
  - rewrite reminderTick_run. cbn zeta.
    destruct (existsb (eligible (clockAt (clockReads s))) (tasks s));
      [|intros _; exact Hc].
    rewrite setTasks_run. cbn [tasks]. apply sortTasks_canonical_valid.
Qed.

(** X21. Only the reminder interval adds alerts and only their timeouts
    remove them: every other event of the page leaves the list of alerts as
    it is. *)
Theorem user_events_keep_alerts (e : Event) (s : AppState) :
  e <> ReminderInterval ->
  (forall alert, e <> AlertTimeout alert) ->
  activeAlerts (exec (dispatch e) s) = activeAlerts s.
Proof.
  intros Hn Ha. destruct e as [ | v | v | v | tid | tid | tid | index | | | alert ]; cbn [dispatch];
    try reflexivity.
  - unfold exec, handleAddTask.
    destruct (negb (nonEmpty (trim (formTitle s))) || negb (nonEmpty (formTime s)));
      [reflexivity|].
    destruct (Date_parse (formTime s)); reflexivity.
  - rewrite handleSnoozeTask_state. cbn. apply app_nil_r.
  - destruct (nth_error templates index); [|reflexivity].
    rewrite handleApplyTemplate_state. cbn. apply app_nil_r.
  - congruence.
  - exfalso. now apply (Ha alert).
Qed.
End Events.

(** ** More of the component, on the reference host *)

Lemma templateTarget_ahead_witness :
  let H := RefHost.host in
  let t := templateTarget 1709251199123 planTheDay in
  1709251199123 < t <= 1709251199123 + msPerDay
  /\ getHours t = 7 /\ getMinutes t = 20
  /\ getSeconds t = 0 /\ getMilliseconds t = 0.
Proof.
  intros H. apply (templateTarget_ahead (H := H) (-60) 1709251199123 planTheDay).
  - split; intros; reflexivity.
  - unfold clockTime. simpl. lia.
Defined.

Lemma ClickTemplate_schedules_ahead_witness :
  let H := RefHost.host in
  let template := {| name := "Evening Wind Down";
                     description := "Prepare tomorrow and unplug with intention.";
                     template_tasks :=
                       [ {| item_title := "Tomorrow prep";
                            item_notes := "Lay out clothes & top priorities.";
                            hour := 20; minute := 0 |};
                         {| item_title := "Digital sunset";
                            item_notes := "Screens off and switch to warm lights.";
                            hour := 21; minute := 0 |};
                         {| item_title := "Gratitude journal";
                            item_notes := "Capture three things that went well.";
                            hour := 21; minute := 30 |} ] |} in
  let now := clockAt (clockReads sampleState) in
  let s' := exec (dispatch (ClickTemplate 2)) sampleState in
  exists additions,
    Permutation (tasks s') (tasks sampleState ++ additions)%list
    /\ List.length additions = 3%nat
    /\ Forall (fun task =>
                 exists item t,
                   In item (template_tasks template)
                   /\ title task = item_title item /\ title task <> EmptyString
                   /\ notes task = item_notes item
                   /\ scheduledFor task = toISOString t
                   /\ now < t <= now + msPerDay
                   /\ getHours t = hour item /\ getMinutes t = minute item
                   /\ completed task = false /\ notifiedAt task = None)
              additions.
Proof.
  intros H template.
  apply (ClickTemplate_schedules_ahead (H := H) (-60) sampleState 2 template).
  - split; intros; reflexivity.
  - reflexivity.
Defined.

Lemma defaultFormTime_mark_witness :
  let H := RefHost.host in
  exists t,
    defaultFormTime 1709251199123 = toLocalInputValue t
    /\ getMinutes t mod 5 = 0 /\ getSeconds t = 0 /\ getMilliseconds t = 0
    /\ (getMinutes 1709251199123 mod 5 = 0
        -> 1709251199123 - msPerMinute < t <= 1709251199123)
    /\ (getMinutes 1709251199123 mod 5 <> 0
        -> 1709251199123 < t < 1709251199123 + 5 * msPerMinute).
Proof.
  intros H. apply (defaultFormTime_mark (H := H) (-60) 1709251199123).
  split; intros; reflexivity.
Defined.

Lemma relativeLabel_now_witness :
  let H := RefHost.host in
  relativeLabel "2024-02-29T23:50:00.000Z" 1709250610000 = Some LabelNow
  <-> -30000 <= 1709250600000 - 1709250610000 < 30000.
Proof.
  intros H.
  apply (relativeLabel_now (H := H) "2024-02-29T23:50:00.000Z" 1709250600000
           1709250610000).
  vm_compute. reflexivity.
Defined.

Lemma relativeLabel_value_witness :
  let H := RefHost.host in
  let diff := 1709250600000 - 1709245200000 in
  ("hour" = "minute" /\ 1 <= Z.abs 2 <= 59 /\ Z.abs (diff - 2 * 60000) <= 30000)
  \/ ("hour" = "hour" /\ 1 <= Z.abs 2
      /\ Z.abs (diff - 2 * 3600000) <= 1830000).
Proof.
  intros H.
  apply (relativeLabel_value (H := H) "2024-02-29T23:50:00.000Z" 1709250600000
           1709245200000 2 "hour").
  - vm_compute. reflexivity.
  - vm_compute. reflexivity.
Defined.

Lemma views_sorted_witness :
  let H := RefHost.host in
  let l := [laterTask; doneTask; dueTask] in
  StronglySorted earlier (upcomingTasks l)
  /\ StronglySorted later (completedTasks l)
  /\ (forall t, nextTask l = Some t ->
        In t l /\ completed t = false
        /\ forall u, In u l -> completed u = false -> earlier t u).
Proof.
  intros H l. apply (views_sorted (H := H) l).
  repeat constructor; vm_compute; discriminate.
Defined.

Lemma views_of_canonical_witness :
  let H := RefHost.host in
  let l := [dueTask; laterTask; doneTask] in
  upcomingTasks l = [dueTask; laterTask] /\ nextTask l = Some dueTask.
Proof.
  intros H l. apply (views_of_canonical (H := H) l).
  - repeat constructor; vm_compute; discriminate.
  - unfold canonical, l.
    constructor; [constructor; [constructor; constructor|]|].
    + constructor; [|constructor]. left. split; reflexivity.
    + constructor; [|constructor; [|constructor]].
      * right. split; [reflexivity|].
        exists 1709250600000, 1709294400000. repeat split. discriminate.
      * left. split; reflexivity.
Defined.

Lemma reminderTick_covers_overdue_witness :
  let H := RefHost.host in
  wasNotified (markNotified dueTask "2024-03-01T00:00:01.123Z") = true.
Proof.
  intros H.
  apply (reminderTick_covers_overdue (H := H) sampleState 1709251199123
           (markNotified dueTask "2024-03-01T00:00:01.123Z")).
  - vm_compute. discriminate.
  - vm_compute. left. reflexivity.
  - vm_compute. reflexivity.
Defined.

Lemma reminderTick_alerts_expire_witness :
  let H := RefHost.host in
  let s1 := exec reminderTick sampleState in
  exists fired,
    activeAlerts s1 = (activeAlerts sampleState ++ fired)%list
    /\ activeAlerts (run (map AlertTimeout fired) s1) = activeAlerts sampleState
    /\ tasks (run (map AlertTimeout fired) s1) = tasks s1
    /\ storage (run (map AlertTimeout fired) s1) = storage s1.
Proof.
  intros H. apply (reminderTick_alerts_expire (H := H) sampleState).
  intros a n [].
Defined.

(** A slot written by something else: a record without the optional
    fields, a record without [title], and a number. *)
Definition foreignSlot : option string :=
  let q := String RefHost.dquote EmptyString in
  Some ("[{" ++ q ++ "id" ++ q ++ ":" ++ q ++ "b" ++ q ++ ","
            ++ q ++ "title" ++ q ++ ":" ++ q ++ "u" ++ q ++ ","
            ++ q ++ "scheduledFor" ++ q ++ ":" ++ q ++ "s" ++ q ++ "},"
        ++ "{" ++ q ++ "id" ++ q ++ ":" ++ q ++ "c" ++ q ++ "},7]").

Lemma readTasks_reload_stable_witness :
  let H := RefHost.host in
  readTasks (Some (JSON_stringify (JArr (readTasks foreignSlot))))
  = readTasks foreignSlot.
Proof.
  intros H. apply (readTasks_reload_stable (H := H) foreignSlot).
  - reflexivity.
  - vm_compute. reflexivity.
Defined.

Lemma run_keeps_store_witness :
  let H := RefHost.host in
  storeInvariant (run sampleSession savedState).
Proof.
  intros H. apply (run_keeps_store (H := H) sampleSession savedState).
  - intros n. cbn. discriminate.
  - split; [reflexivity|]. split.
    + repeat constructor.
    + repeat constructor; discriminate.
Defined.

Lemma run_then_readTasks_witness :
  let H := RefHost.host in
  readTasks (storage (run sampleSession savedState))
  = map encodeTask (tasks (run sampleSession savedState)).
Proof.
  intros H.
  refine (run_then_readTasks (H := H) sampleSession savedState _ _ _ _).
  - intros n. cbn. discriminate.
  - split; [reflexivity|]. split.
    + repeat constructor.
    + repeat constructor; discriminate.
  - reflexivity.
  - vm_compute. reflexivity.
Defined.

Lemma dispatch_keeps_canonical_witness :
  let H := RefHost.host in
  canonical (tasks (exec (dispatch (ClickSnooze "t-1")) twoOpenTasks)).
Proof.
  intros H.
  apply (dispatch_keeps_canonical (H := H) (ClickSnooze "t-1") twoOpenTasks).
  - intros taskId. discriminate.
  - unfold canonical. cbn [tasks twoOpenTasks].
    constructor; [constructor; constructor|]. constructor; [|constructor].
    right. split; [reflexivity|].
    exists 1709250600000, 1709294400000. repeat split. discriminate.
  - set (l := tasks (exec (dispatch (ClickSnooze "t-1")) twoOpenTasks)).
    vm_compute in l. subst l.
    repeat constructor; vm_compute; discriminate.
Defined.

Lemma user_events_keep_alerts_witness :
  let H := RefHost.host in
  activeAlerts (exec (dispatch ClickReset) (exec reminderTick sampleState))
  = activeAlerts (exec reminderTick sampleState).
Proof.
  intros H.
  apply (user_events_keep_alerts (H := H) ClickReset (exec reminderTick sampleState)).
  - discriminate.
  - intros alert. discriminate.
Defined.

(** The sample session, run: the task added by the form, the three tasks
    of the evening template, the due task marked by the tick and then
    completed, and the completed task snoozed and deleted. *)
Example sampleSession_titles :
  let H := RefHost.host in
  map (fun task => (title task, completed task, wasNotified task))
      (tasks (run sampleSession savedState))
  = [ ("Read", false, false); ("Tomorrow prep", false, false);
      ("Digital sunset", false, false); ("Gratitude journal", false, false);
      ("Stretch", true, true) ].
Proof. vm_compute. reflexivity. Qed.

(** ** What a tick never alarms *)

Section TickSoundness.
Context {H : Host}.

Lemma tickAlerts_due (now : Z) (l : list Task) : forall c i,
  Forall (fun a =>
            exists task,
              In task l /\ taskId a = id task /\ message a = alertMessage task
              /\ eligible now task = true)
         (tickAlerts now c i l).
Proof.
  induction l as [|task r IH]; intros c i; simpl; [constructor|].
  destruct (eligible now task) eqn:He.
  - constructor.
    + exists task. simpl. auto.
    + eapply Forall_impl; [|apply IH].
      intros a (u & Hin & Hrest). exists u. split; [now right | exact Hrest].
  - eapply Forall_impl; [|apply IH].
    intros a (u & Hin & Hrest). exists u. split; [now right | exact Hrest].
Qed.

(** X22. Every alert a reminder tick pushes is for a task of the store
    that was incomplete, had no truthy [notifiedAt] and was scheduled at or
    before the instant the tick read, and carries that task's id and
    message: a completed task, a task already notified and a task not yet
    due are never alarmed. *)
Theorem reminderTick_alerts_only_due (s : AppState) :
  let now := clockAt (clockReads s) in
  exists fired,
    activeAlerts (exec reminderTick s) = (activeAlerts s ++ fired)%list
    /\ Forall (fun a =>
                 exists task,
                   In task (tasks s)
                   /\ taskId a = id task /\ message a = alertMessage task
                   /\ completed task = false /\ wasNotified task = false
                   /\ exists scheduled,
                        getTime task = Some scheduled /\ scheduled <= now)
              fired.
Proof.
  cbn zeta. eexists. split; [apply reminderTick_alerts_exact|].
  eapply Forall_impl; [|apply tickAlerts_due].
  intros a (task & Hin & Hid & Hm & He). exists task.
  split; [exact Hin|]. split; [exact Hid|]. split; [exact Hm|].
  unfold eligible, isDue in He. apply andb_true_iff in He as [Hn Hd].
  apply negb_true_iff, orb_false_iff in Hn as [Hc Hn].
  split; [exact Hc|]. split; [exact Hn|].
  destruct (getTime task) as [x|]; [|discriminate].
  exists x. split; [reflexivity | now apply Z.leb_le].
Qed.
End TickSoundness.
